(** * Friend-link checker: a shallow embedding of the check-links script

    The script reads [data/friends.ts], checks every friend link (page URL
    and avatar URL) with retries, records the unreachable ones in
    [disconnected.json], toggles the [disconnected] flag of the entries and
    rewrites the data file.

    JavaScript strings are sequences of UTF-16 code units; they are modelled
    as [list N].  Asynchronous code runs sequentially (every promise is
    awaited at once), so it is modelled in a state monad over a [World] that
    holds the network and random oracles, the two files, the outcome of the
    file operations and the log of probes and sleeps; exceptions and
    [process.exit] are outcomes of the monad.  The value of [Math.random()]
    is a binary64 number, given by its mantissa and exponent, and its
    product with 100 is rounded as binary64 arithmetic rounds it.  Console
    output is informational only and is left out. *)

From Stdlib Require Import ZArith NArith Lia List Ascii String.
From stdpp Require Import base tactics option list pretty.

Open Scope Z_scope.
Open Scope list_scope.

(** ** JavaScript strings *)

Abbreviation jsstring := (list N).

Fixpoint lit (s : string) : jsstring :=
  match s with
  | EmptyString => []
  | String a s' => N_of_ascii a :: lit s'
  end.

Definition dquote : N := 34%N.
Definition newline : N := 10%N.

(** [a === b] on strings *)
Fixpoint jsstring_eqb (a b : jsstring) : bool :=
  match a, b with
  | [], [] => true
  | x :: a', y :: b' => N.eqb x y && jsstring_eqb a' b'
  | _, _ => false
  end.

(** [s.startsWith(p)] *)
Fixpoint startsWith (p s : jsstring) : bool :=
  match p, s with
  | [], _ => true
  | _ :: _, [] => false
  | a :: p', b :: s' => N.eqb a b && startsWith p' s'
  end.

(** [s.includes(p)] *)
Fixpoint includes (s p : jsstring) : bool :=
  startsWith p s ||
  match s with
  | [] => false
  | _ :: s' => includes s' p
  end.

(** [parts.join(sep)] *)
Fixpoint join (sep : jsstring) (parts : list jsstring) : jsstring :=
  match parts with
  | [] => []
  | [p] => p
  | p :: rest => p ++ sep ++ join sep rest
  end.

(** Template interpolation of an integer. *)
Definition numberText (z : Z) : jsstring := lit (pretty z).

(** ** Data model *)

Record FriendLink := {
  name : jsstring;
  description : jsstring;
  url : jsstring;
  avatar : jsstring;
  addDate : option jsstring;
  recommended : option bool;
  disconnected : option bool
}.

Inductive LinkStatus := OK | TIMEOUT | ERROR.

Definition statusText (s : LinkStatus) : jsstring :=
  match s with
  | OK => lit "ok"
  | TIMEOUT => lit "timeout"
  | ERROR => lit "error"
  end.

Record LinkCheckResult := {
  res_name : jsstring;
  res_url : jsstring;
  res_avatar : jsstring;
  status : option LinkStatus;
  httpStatus : option Z;
  responseTime : option Z;
  reason : option jsstring;
  avatarStatus : option LinkStatus;
  avatarHttpStatus : option Z;
  avatarResponseTime : option Z
}.

Record DisconnectedInfo := {
  info_name : jsstring;
  info_url : jsstring;
  info_reason : jsstring
}.

#[global] Instance LinkStatus_eq_dec : EqDecision LinkStatus.
Proof. solve_decision. Defined.

#[global] Instance FriendLink_eq_dec : EqDecision FriendLink.
Proof. solve_decision. Defined.

(** Truthiness of an optional boolean and of an optional string. *)
Definition truthy (b : option bool) : bool :=
  match b with
  | Some true => true
  | _ => false
  end.

Definition truthyText (s : option jsstring) : bool :=
  match s with
  | Some (_ :: _) => true
  | _ => false
  end.

(** [st !== 'ok'] on an optional status. *)
Definition notOk (st : option LinkStatus) : bool :=
  match st with
  | Some OK => false
  | _ => true
  end.

Definition isOk (st : option LinkStatus) : bool := negb (notOk st).

(** ** Constants *)

Definition CHECK_TIMEOUT : Z := 15000.
Definition MAX_RETRIES : nat := 3.
Definition RETRY_DELAY : Z := 1000.

(** ** Numbers

    A number of the script that is finite and not negative: the binary64
    number [mantissa * 2 ^ exponent]. *)
Record Double := { mantissa : Z; exponent : Z }.

(** [x / 2 ^ s] rounded to the nearest integer, and to the even one of two
    nearest: the rounding of binary64 arithmetic. *)
Definition roundShift (x s : Z) : Z :=
  let q := Z.shiftr x s in
  let rest := x - Z.shiftl q s in
  let middle := Z.shiftl 1 (s - 1) in
  if s <=? 0 then x
  else if rest <? middle then q
  else if middle <? rest then q + 1
  else if Z.even q then q else q + 1.

(** The binary64 number nearest to [m * 2 ^ e]: it keeps 53 significant
    bits, and its exponent is not below -1074. *)
Definition round64 (m e : Z) : Double :=
  let s := Z.max 0 (Z.max (Z.log2 m - 52) (-1074 - e)) in
  {| mantissa := roundShift m s; exponent := e + s |}.

(** [a * b]: the exact product, rounded. The products of the script stay
    below 100; overflow is out of their reach. *)
Definition times (a b : Double) : Double :=
  round64 (mantissa a * mantissa b) (exponent a + exponent b).

(** [Math.floor(x)] *)
Definition mathFloor (x : Double) : Z := Z.shiftl (mantissa x) (exponent x).

Definition hundred : Double := {| mantissa := 100; exponent := 0 |}.

(** A number in [0, 1). *)
Definition inUnitInterval (r : Double) : Prop :=
  0 <= mantissa r < 2 ^ 53 /\ -1074 <= exponent r /\
  mantissa r < 2 ^ (- exponent r).

(** ** The world and the monad of the script *)

(** A value that was thrown: an [Error] object with its name and message, or
    anything else, given by its [String(e)]. *)
Inductive Thrown :=
| ErrorObject (ename emessage : jsstring)
| NotAnError (text : jsstring).

(** What [fetch] does with one request: it resolves to a response, after
    [elapsed] milliseconds, or it rejects.  The abort signal that the timer
    of [fetchUrl] raises after [CHECK_TIMEOUT] milliseconds makes [fetch]
    reject with an error object named AbortError. *)
Inductive FetchRaw :=
| Resolves (ok : bool) (code : Z) (elapsed : Z)
| Rejects (e : Thrown).

Inductive Event :=
| EvFetch (target : jsstring)
| EvSleep (delay : Z).

(** The three file operations of [main]. *)
Inductive FileOp :=
| ReadData       (* fs.readFile(DATA_PATH) *)
| WriteReport    (* fs.writeFile(OUTPUT_PATH, ...) *)
| WriteData.     (* fs.writeFile(DATA_PATH, ...) *)

Record World := {
  net : nat -> jsstring -> FetchRaw;   (* answer to the n-th request, by URL *)
  random : nat -> Double;              (* n-th value of Math.random() *)
  fetches : nat;                       (* requests issued so far *)
  randoms : nat;                       (* random values drawn so far *)
  events : list Event;                 (* probes and sleeps, oldest first *)
  dataFile : jsstring;                 (* data/friends.ts *)
  outputFile : option (list DisconnectedInfo);
                                       (* disconnected.json: the list that
                                          JSON.stringify serialises *)
  fs : FileOp -> option Thrown         (* the error that a file operation
                                          rejects with, if it does *)
}.

(** [Math.random()] yields a number in [0, 1). *)
Definition fairRandom (w : World) : Prop :=
  forall n, inUnitInterval (random w n).

(** Every file operation succeeds. *)
Definition diskOk (w : World) : Prop := forall op, fs w op = None.

Inductive Outcome (A : Type) :=
| Returns (a : A)
| Throws (e : Thrown)
| Exits (code : Z).
Arguments Returns {A} a.
Arguments Throws {A} e.
Arguments Exits {A} code.

Definition M (A : Type) : Type := World -> Outcome A * World.

#[global] Instance M_ret : MRet M := fun A a w => (Returns a, w).

#[global] Instance M_bind : MBind M := fun A B f c w =>
  match c w with
  | (Returns a, w') => f a w'
  | (Throws e, w') => (Throws e, w')
  | (Exits n, w') => (Exits n, w')
  end.

Definition throw {A} (e : Thrown) : M A := fun w => (Throws e, w).

Definition processExit {A} (n : Z) : M A := fun w => (Exits n, w).

Definition tryCatch {A} (body : M A) (handler : Thrown -> M A) : M A :=
  fun w =>
    match body w with
    | (Throws e, w') => handler e w'
    | r => r
    end.

Definition emit (ev : Event) : M unit := fun w =>
  (Returns tt,
   {| net := net w; random := random w; fetches := fetches w;
      randoms := randoms w; events := events w ++ [ev];
      dataFile := dataFile w; outputFile := outputFile w; fs := fs w |}).

(** [await fetch(url, ...)]: the next answer of the network. *)
Definition fetch (target : jsstring) : M FetchRaw := fun w =>
  (Returns (net w (fetches w) target),
   {| net := net w; random := random w; fetches := S (fetches w);
      randoms := randoms w; events := events w ++ [EvFetch target];
      dataFile := dataFile w; outputFile := outputFile w; fs := fs w |}).

(** [Math.random()] *)
Definition mathRandom : M Double := fun w =>
  (Returns (random w (randoms w)),
   {| net := net w; random := random w; fetches := fetches w;
      randoms := S (randoms w); events := events w;
      dataFile := dataFile w; outputFile := outputFile w; fs := fs w |}).

(** [await new Promise(resolve => setTimeout(resolve, delay))] *)
Definition sleep (delay : Z) : M unit := emit (EvSleep delay).

(** [await fs.readFile(DATA_PATH, 'utf-8')]: the content of the file, or the
    rejection of the operation as an exception. *)
Definition readDataFile : M jsstring := fun w =>
  match fs w ReadData with
  | Some e => (Throws e, w)
  | None => (Returns (dataFile w), w)
  end.

(** [await fs.writeFile(DATA_PATH, content)]. A write that rejects is taken
    to fail before it has written: the file keeps its content. *)
Definition writeDataFile (content : jsstring) : M unit := fun w =>
  match fs w WriteData with
  | Some e => (Throws e, w)
  | None =>
  (Returns tt,
   {| net := net w; random := random w; fetches := fetches w;
      randoms := randoms w; events := events w;
      dataFile := content; outputFile := outputFile w; fs := fs w |})
  end.

(** [await fs.writeFile(OUTPUT_PATH, JSON.stringify(l, null, 2))] *)
Definition writeOutputFile (l : list DisconnectedInfo) : M unit := fun w =>
  match fs w WriteReport with
  | Some e => (Throws e, w)
  | None =>
  (Returns tt,
   {| net := net w; random := random w; fetches := fetches w;
      randoms := randoms w; events := events w;
      dataFile := dataFile w; outputFile := Some l; fs := fs w |})
  end.

(** ** fetchUrl *)

Record FetchResult := { ok : bool; code : Z; time : Z }.

(** The [try] has a [finally] and no [catch]: a rejection of [fetch] leaves
    [fetchUrl] as an exception, after the timer is cleared. *)
Definition fetchUrl (target : jsstring) : M FetchResult :=
  raw ← fetch target;
  match raw with
  | Resolves o c t => mret {| ok := o; code := c; time := t |}
  | Rejects e => throw e
  end.

(** ** checkLink *)

Record ErrorValue := { err_name : jsstring; err_message : jsstring }.

(** [e instanceof Error ? e : new Error(String(e))] *)
Definition toError (e : Thrown) : ErrorValue :=
  match e with
  | ErrorObject n m => {| err_name := n; err_message := m |}
  | NotAnError t => {| err_name := lit "Error"; err_message := t |}
  end.

(** [RETRY_DELAY * 2 ** i + Math.floor(Math.random() * 100)], where [r] is
    the value of [Math.random()]. The product is a binary64 product, which
    is rounded; the power, its product with [RETRY_DELAY] and the sum are
    integers far below 2^53, on which binary64 arithmetic is exact. *)
Definition retryDelay (i : nat) (r : Double) : Z :=
  RETRY_DELAY * 2 ^ Z.of_nat i + mathFloor (times r hundred).

(** One iteration of a retry loop: the [try] block and its [catch]. The
    result is the response on success ([break]) and the caught error
    otherwise. *)
Definition attempt (target : jsstring) (i : nat) : M (FetchResult + ErrorValue) :=
  tryCatch
    (res ← fetchUrl target;
     if negb (ok res)
     then throw (ErrorObject (lit "Error") (lit "HTTP " ++ numberText (code res)))
     else mret (inl res))
    (fun e =>
       let lastError := toError e in
       (if (i <? MAX_RETRIES - 1)%nat
        then r ← mathRandom; sleep (retryDelay i r)
        else mret tt) ≫= fun _ => mret (inr lastError)).

(** [for (let i = ...; i < MAX_RETRIES; i++) { ... }], with [n] iterations
    left: both loops of [checkLink] have this shape. The result is the
    response of the successful attempt, if any, and the last error. *)
Fixpoint retryLoop (target : jsstring) (n i : nat) (lastError : option ErrorValue)
  : M (option FetchResult * option ErrorValue) :=
  match n with
  | O => mret (None, lastError)
  | S n' =>
      r ← attempt target i;
      match r with
      | inl res => mret (Some res, lastError)
      | inr e => retryLoop target n' (S i) (Some e)
      end
  end.

(** [lastError?.name === 'AbortError' ? 'timeout' : 'error'] *)
Definition failureStatus (lastError : option ErrorValue) : LinkStatus :=
  match lastError with
  | Some e => if jsstring_eqb (err_name e) (lit "AbortError") then TIMEOUT else ERROR
  | None => ERROR
  end.

Definition checkLink (friend : FriendLink) : M LinkCheckResult :=
  if truthy (disconnected friend) then
    mret {| res_name := name friend; res_url := url friend;
            res_avatar := avatar friend;
            status := Some OK; httpStatus := None; responseTime := Some 0;
            reason := None;
            avatarStatus := Some OK; avatarHttpStatus := None;
            avatarResponseTime := Some 0 |}
  else
    u ← retryLoop (url friend) MAX_RETRIES 0 None;
    a ← retryLoop (avatar friend) MAX_RETRIES 0 None;
    mret {| res_name := name friend; res_url := url friend;
            res_avatar := avatar friend;
            status := Some (match u.1 with Some _ => OK | None => failureStatus u.2 end);
            httpStatus := code <$> u.1;
            responseTime := Some (match u.1 with Some res => time res | None => 0 end);
            reason := match u.1 with
                      | Some _ => None
                      | None => err_message <$> u.2
                      end;
            avatarStatus := Some (match a.1 with Some _ => OK | None => failureStatus a.2 end);
            avatarHttpStatus := code <$> a.1;
            avatarResponseTime := Some (match a.1 with Some res => time res | None => 0 end) |}.

(** ** main: checking every entry and reconciling the flags *)

(** [for (const friend of friends) results.push(await checkLink(friend))] *)
Fixpoint checkAll (friends : list FriendLink) : M (list LinkCheckResult) :=
  match friends with
  | [] => mret []
  | friend :: rest =>
      result ← checkLink friend;
      results ← checkAll rest;
      mret (result :: results)
  end.

(** The text that the filter of [main] looks for in a reason. *)
Definition marker : jsstring :=
  [24050; 26631; 35760; 20026; 22833; 32852]%N.

(** [r.reason?.includes(marker)], as a condition *)
Definition mentionsMarker (r : LinkCheckResult) : bool :=
  match reason r with
  | Some s => includes s marker
  | None => false
  end.

(** The predicate of [results.filter(...)]. *)
Definition isFailed (r : LinkCheckResult) : bool :=
  (notOk (status r) && negb (mentionsMarker r)) || notOk (avatarStatus r).

Definition failed (results : list LinkCheckResult) : list LinkCheckResult :=
  List.filter isFailed results.

Definition statusTemplate (st : option LinkStatus) : jsstring :=
  match st with
  | Some s => statusText s
  | None => lit "undefined"
  end.

(** The [issues] array built for one failed result. *)
Definition issues (f : LinkCheckResult) : list jsstring :=
  (if notOk (status f)
   then [lit "URL: " ++ statusTemplate (status f) ++
         (if truthyText (reason f)
          then lit " (" ++ default [] (reason f) ++ lit ")"
          else [])]
   else []) ++
  (if notOk (avatarStatus f)
   then [lit "Avatar: " ++ statusTemplate (avatarStatus f)]
   else []).

Definition disconnectedInfo (f : LinkCheckResult) : DisconnectedInfo :=
  {| info_name := res_name f; info_url := res_url f;
     info_reason := join (lit ", ") (issues f) |}.

Definition disconnectedList (fs : list LinkCheckResult) : list DisconnectedInfo :=
  map disconnectedInfo fs.

Definition setDisconnected (f : FriendLink) (d : option bool) : FriendLink :=
  {| name := name f; description := description f; url := url f;
     avatar := avatar f; addDate := addDate f; recommended := recommended f;
     disconnected := d |}.

(** [results.find(r => r.name === f.name)] *)
Definition findResult (results : list LinkCheckResult) (f : FriendLink)
  : option LinkCheckResult :=
  List.find (fun r => jsstring_eqb (res_name r) (name f)) results.

(** The callback of [friends.map] in the branch with failures. *)
Definition updateFriend (results : list LinkCheckResult) (f : FriendLink) : FriendLink :=
  let result := findResult results f in
  if match result with
     | Some r => notOk (status r) || notOk (avatarStatus r)
     | None => false
     end
  then setDisconnected f (Some true)
  else if match result with
          | Some r => isOk (status r) && isOk (avatarStatus r) && truthy (disconnected f)
          | None => false
          end
  then setDisconnected f None
  else f.

Definition updatedFriends (friends : list FriendLink) (results : list LinkCheckResult)
  : list FriendLink :=
  map (updateFriend results) friends.

(** [updatedFriends.some((f, i) => f.disconnected !== friends[i].disconnected)];
    the two lists have the same length, [updatedFriends] being a map of
    [friends]. *)
Definition hasChanges (updated friends : list FriendLink) : bool :=
  existsb (fun p => negb (bool_decide (disconnected p.1 = disconnected p.2)))
          (zip updated friends).

(** The branch without failures. *)
Definition recoveredFriends (friends : list FriendLink) : list FriendLink :=
  List.filter (fun f => truthy (disconnected f)) friends.

Definition clearFlag (f : FriendLink) : FriendLink :=
  if truthy (disconnected f) then setDisconnected f None else f.

Definition clearedFriends (friends : list FriendLink) : list FriendLink :=
  map clearFlag friends.

(** ** Regular expressions

    The fragment of ECMAScript regular expressions that the two patterns of
    [parseFriendsTs] use, with the backtracking semantics of the language:
    a matcher takes the input left to read, the captures so far and a
    continuation; alternatives are tried in priority order and the first
    one whose continuation succeeds wins. Quantifiers apply to character
    classes only. *)

Inductive CharClass :=
| Space      (* \s *)
| NotQuote   (* any character but the double quote *)
| AnyChar.   (* [\s\S] *)

(** White space and line terminators of ECMAScript. *)
Definition isSpace (c : N) : bool :=
  ((9 <=? c) && (c <=? 13) || (c =? 32) || (c =? 160) || (c =? 5760) ||
   (8192 <=? c) && (c <=? 8202) || (c =? 8232) || (c =? 8233) ||
   (c =? 8239) || (c =? 8287) || (c =? 12288) || (c =? 65279))%N.

Definition inClass (cl : CharClass) (c : N) : bool :=
  match cl with
  | Space => isSpace c
  | NotQuote => negb (c =? dquote)%N
  | AnyChar => true
  end.

Inductive Regex :=
| Chars (l : jsstring)          (* literal characters *)
| Star (cl : CharClass)         (* cl*  *)
| LazyStar (cl : CharClass)     (* cl*? *)
| Plus (cl : CharClass)         (* cl+  *)
| Seq (r1 r2 : Regex)
| Alt (r1 r2 : Regex)           (* r1|r2 *)
| Opt (r : Regex)               (* (?:r)? *)
| Group (i : nat) (r : Regex).  (* i-th capturing group *)

Declare Scope regex_scope.
Delimit Scope regex_scope with re.
Bind Scope regex_scope with Regex.
Infix "⋅" := Seq (at level 60, right associativity) : regex_scope.

Definition Captures := nat -> option jsstring.

Definition noCaptures : Captures := fun _ => None.

Definition setCapture (i : nat) (v : jsstring) (caps : Captures) : Captures :=
  fun j => if (j =? i)%nat then Some v else caps j.

Definition Cont (R : Type) := jsstring -> Captures -> option R.

Fixpoint stripPrefix (l s : jsstring) : option jsstring :=
  match l, s with
  | [], _ => Some s
  | _ :: _, [] => None
  | a :: l', b :: s' => if (a =? b)%N then stripPrefix l' s' else None
  end.

(** Greedy iteration: as many characters as possible first. *)
Fixpoint starGreedy {R} (p : N -> bool) (k : Cont R) (s : jsstring) (caps : Captures)
  : option R :=
  match s with
  | c :: s' =>
      if p c
      then match starGreedy p k s' caps with
           | Some r => Some r
           | None => k s caps
           end
      else k s caps
  | [] => k s caps
  end.

(** Lazy iteration: as few characters as possible first. *)
Fixpoint starLazy {R} (p : N -> bool) (k : Cont R) (s : jsstring) (caps : Captures)
  : option R :=
  match k s caps with
  | Some r => Some r
  | None =>
      match s with
      | c :: s' => if p c then starLazy p k s' caps else None
      | [] => None
      end
  end.

Fixpoint rmatch {R} (r : Regex) (k : Cont R) (s : jsstring) (caps : Captures)
  : option R :=
  match r with
  | Chars l =>
      match stripPrefix l s with
      | Some s' => k s' caps
      | None => None
      end
  | Star cl => starGreedy (inClass cl) k s caps
  | LazyStar cl => starLazy (inClass cl) k s caps
  | Plus cl =>
      match s with
      | c :: s' => if inClass cl c then starGreedy (inClass cl) k s' caps else None
      | [] => None
      end
  | Seq r1 r2 => rmatch r1 (fun s' caps' => rmatch r2 k s' caps') s caps
  | Alt r1 r2 =>
      match rmatch r1 k s caps with
      | Some x => Some x
      | None => rmatch r2 k s caps
      end
  | Opt r0 =>
      (* an iteration that consumes nothing is rejected *)
      match rmatch r0 (fun s' caps' =>
                         if (length s' =? length s)%nat then None else k s' caps')
                   s caps with
      | Some x => Some x
      | None => k s caps
      end
  | Group i r0 =>
      rmatch r0 (fun s' caps' =>
                   k s' (setCapture i (take (length s - length s') s) caps'))
             s caps
  end.

Definition accept : Cont (Captures * jsstring) := fun s caps => Some (caps, s).

(** A match that starts at the first character of [s]. *)
Definition matchAt (r : Regex) (s : jsstring) : option (Captures * jsstring) :=
  rmatch r accept s noCaptures.

(** The leftmost match in [s]: its captures and the input after it. *)
Fixpoint search (r : Regex) (s : jsstring) : option (Captures * jsstring) :=
  match matchAt r s with
  | Some x => Some x
  | None =>
      match s with
      | _ :: s' => search r s'
      | [] => None
      end
  end.

(** ** parseFriendsTs *)

Definition ws : Regex := Star Space.

Definition quoted (i : nat) (body : Regex) : Regex :=
  (Chars [dquote] ⋅ Group i body ⋅ Chars [dquote])%re.

Definition trueOrFalse (i : nat) : Regex :=
  Group i (Alt (Chars (lit "true")) (Chars (lit "false"))).

(** [/export const FRIEND_LINKS:\s*FriendLink\[\]\s*=\s*\[([\s\S]*?)\];/] *)
Definition arrayRegex : Regex :=
  (Chars (lit "export const FRIEND_LINKS:") ⋅ ws ⋅
   Chars (lit "FriendLink[]") ⋅ ws ⋅
   Chars (lit "=") ⋅ ws ⋅
   Chars (lit "[") ⋅ Group 1 (LazyStar AnyChar) ⋅ Chars (lit "];"))%re.

(** The pattern of one object: the four required fields, then the three
    optional ones in their fixed order. *)
Definition objectRegex : Regex :=
  (Chars (lit "{") ⋅ ws ⋅
   Chars (lit "name:") ⋅ ws ⋅ quoted 1 (Plus NotQuote) ⋅
   Chars (lit ",") ⋅ ws ⋅
   Chars (lit "description:") ⋅ ws ⋅ quoted 2 (Plus NotQuote) ⋅
   Chars (lit ",") ⋅ ws ⋅
   Chars (lit "url:") ⋅ ws ⋅ quoted 3 (Plus NotQuote) ⋅
   Chars (lit ",") ⋅ ws ⋅
   Chars (lit "avatar:") ⋅ ws ⋅ quoted 4 (Plus NotQuote) ⋅
   Opt (Chars (lit ",") ⋅ ws ⋅ Chars (lit "addDate:") ⋅ ws ⋅
        quoted 5 (Star NotQuote)) ⋅
   Opt (Chars (lit ",") ⋅ ws ⋅ Chars (lit "recommended:") ⋅ ws ⋅
        trueOrFalse 6) ⋅
   Opt (Chars (lit ",") ⋅ ws ⋅ Chars (lit "disconnected:") ⋅ ws ⋅
        trueOrFalse 7) ⋅
   ws ⋅ Chars (lit "}"))%re.

(** [objMatch[i] === 'true' ? true : undefined] *)
Definition trueFlag (c : option jsstring) : option bool :=
  match c with
  | Some v => if jsstring_eqb v (lit "true") then Some true else None
  | None => None
  end.

(** [objMatch[5] || undefined] *)
Definition orUndefined (c : option jsstring) : option jsstring :=
  match c with
  | Some (x :: v) => Some (x :: v)
  | _ => None
  end.

(** The object pushed for one match; groups 1 to 4 take part in every
    match. *)
Definition friendOfMatch (objMatch : Captures) : FriendLink :=
  {| name := default [] (objMatch 1%nat);
     description := default [] (objMatch 2%nat);
     url := default [] (objMatch 3%nat);
     avatar := default [] (objMatch 4%nat);
     addDate := orUndefined (objMatch 5%nat);
     recommended := trueFlag (objMatch 6%nat);
     disconnected := trueFlag (objMatch 7%nat) |}.

(** [while ((objMatch = objectRegex.exec(arrayContent)) !== null)]: the
    pattern is global, each search starts where the previous match ended.
    The loop is given [fuel] iterations; [None] stands for a loop that does
    not end within them. *)
Fixpoint execAll (fuel : nat) (s : jsstring) : option (list FriendLink) :=
  match fuel with
  | O => None
  | S fuel' =>
      match search objectRegex s with
      | None => Some []
      | Some (objMatch, rest) =>
          cons (friendOfMatch objMatch) <$> execAll fuel' rest
      end
  end.

(** The message of the error of [parseFriendsTs]. *)
Definition parseErrorMessage : jsstring :=
  [26080; 27861; 35299; 26512]%N ++ lit " friends.ts " ++ [25991; 20214]%N.

(** Every iteration consumes a character of [arrayContent], so its length
    bounds the number of iterations ([execAll_enough_fuel]). *)
Definition parseFriendsTs (content : jsstring) : Thrown + list FriendLink :=
  match search arrayRegex content with
  | None => inl (ErrorObject (lit "Error") parseErrorMessage)
  | Some (m, _) =>
      let arrayContent := default [] (m 1%nat) in
      inr (default [] (execAll (S (length arrayContent)) arrayContent))
  end.

(** ** generateFriendsTs *)

Definition line (s : string) : jsstring := lit s ++ [newline].

Definition entryText (f : FriendLink) : jsstring :=
  line "    {" ++
  lit "        name: " ++ [dquote] ++ name f ++ [dquote] ++ line "," ++
  lit "        description: " ++ [dquote] ++ description f ++ [dquote] ++ line "," ++
  lit "        url: " ++ [dquote] ++ url f ++ [dquote] ++ line "," ++
  lit "        avatar: " ++ [dquote] ++ avatar f ++ [dquote] ++
  (if truthyText (addDate f)
   then line "," ++ lit "        addDate: " ++ [dquote] ++
        default [] (addDate f) ++ [dquote]
   else []) ++
  (if truthy (recommended f)
   then line "," ++ lit "        recommended: true"
   else []) ++
  (if truthy (disconnected f)
   then line "," ++ lit "        disconnected: true"
   else []) ++
  [newline] ++ lit "    }".

Definition fileHeader : jsstring :=
  line "export interface FriendLink {" ++
  line "    name: string;" ++
  line "    description: string;" ++
  line "    url: string;" ++
  line "    avatar: string;" ++
  line "    addDate?: string;" ++
  line "    recommended?: boolean;" ++
  line "    disconnected?: boolean;" ++
  line "}" ++
  line "" ++
  line "export const FRIEND_LINKS: FriendLink[] = [".

Definition generateFriendsTs (friends : list FriendLink) : jsstring :=
  let entries := map entryText friends in
  fileHeader ++ join (lit "," ++ [newline]) entries ++ line "," ++ line "];".

(** ** main *)

(** The part of [main] that follows the parsing of the data file. *)
Definition checkAndUpdate (friends : list FriendLink) : M unit :=
  results ← checkAll friends;
  let failedResults := failed results in
  if (0 <? length failedResults)%nat then
    writeOutputFile (disconnectedList failedResults) ≫= fun _ =>
    let updated := updatedFriends friends results in
    (if hasChanges updated friends
     then writeDataFile (generateFriendsTs updated)
     else mret tt) ≫= fun _ =>
    processExit 1
  else
    if (0 <? length (recoveredFriends friends))%nat
    then writeDataFile (generateFriendsTs (clearedFriends friends))
    else mret tt.

Definition main : M unit :=
  content ← readDataFile;
  match parseFriendsTs content with
  | inl e => throw e
  | inr friends => checkAndUpdate friends
  end.

(** [main().catch(console.error)]: the exit code of the process. A rejection
    of [main] is logged and the process ends normally. *)
Definition exitCode (w : World) : Z :=
  match (main w).1 with
  | Exits n => n
  | Returns _ => 0
  | Throws _ => 0
  end.

(** * Vocabulary of the statements

    Concrete worlds and entries, the events and answers of a resource
    check, the entries that the file format can hold, and the texts that a
    pattern can match. *)

(** ** Concrete worlds and entries *)

(** A world in its initial state, with the given network and a constant
    source of random numbers. *)
Definition worldOf (answers : nat -> jsstring -> FetchRaw) (r : Double) : World :=
  {| net := answers; random := fun _ => r; fetches := 0; randoms := 0;
     events := []; dataFile := []; outputFile := None; fs := fun _ => None |}.

(** The number 0.5. *)
Definition half : Double := {| mantissa := 1; exponent := -1 |}.

(** Every request is refused: [fetch] rejects with a TypeError. *)
Definition worldDown : World :=
  worldOf (fun _ _ => Rejects (ErrorObject (lit "TypeError") (lit "fetch failed")))
          half.

(** Every request runs into the timer of [fetchUrl]. *)
Definition worldSilent : World :=
  worldOf (fun _ _ => Rejects (ErrorObject (lit "AbortError")
                                           (lit "This operation was aborted")))
          half.

(** Every request is answered with status 200 after 120 ms. *)
Definition worldUp : World :=
  worldOf (fun _ _ => Resolves true 200 120) half.

(** An entry with the given name, address and flag. *)
Definition friendOf (n u : string) (d : option bool) : FriendLink :=
  {| name := lit n; description := lit "a friend"; url := lit u;
     avatar := lit u ++ lit "/avatar.png"; addDate := None;
     recommended := None; disconnected := d |}.

(** ** Probes and retries *)

(** An attempt fails when [fetch] rejects or the response is not [ok]. *)
Definition probeFails (raw : FetchRaw) : bool :=
  match raw with
  | Resolves true _ _ => false
  | _ => true
  end.

(** The error that the [catch] block of an attempt receives. *)
Definition caughtError (raw : FetchRaw) : ErrorValue :=
  match raw with
  | Resolves _ c _ => toError (ErrorObject (lit "Error") (lit "HTTP " ++ numberText c))
  | Rejects e => toError e
  end.

(** The timeout condition: [fetch] was aborted by the timer. *)
Definition aborted (raw : FetchRaw) : bool :=
  match raw with
  | Rejects (ErrorObject n _) => jsstring_eqb n (lit "AbortError")
  | _ => false
  end.

(** The world after a request, and after the draw of a random number and
    the sleep that follow the failed attempt of index [i]. *)
Definition afterFetch (target : jsstring) (w : World) : World :=
  {| net := net w; random := random w; fetches := S (fetches w);
     randoms := randoms w; events := events w ++ [EvFetch target];
     dataFile := dataFile w; outputFile := outputFile w; fs := fs w |}.

Definition afterSleep (i : nat) (w : World) : World :=
  {| net := net w; random := random w; fetches := fetches w;
     randoms := S (randoms w);
     events := events w ++ [EvSleep (retryDelay i (random w (randoms w)))];
     dataFile := dataFile w; outputFile := outputFile w; fs := fs w |}.

(** The events of a resource check: a probe, then a sleep and a probe for
    every delay. *)
Fixpoint probesAndSleeps (target : jsstring) (delays : list Z) : list Event :=
  EvFetch target ::
  match delays with
  | [] => []
  | d :: ds => EvSleep d :: probesAndSleeps target ds
  end.

(** The answer to the [i]-th request of a check that starts in [w]. *)
Definition answer (w : World) (target : jsstring) (i : nat) : FetchRaw :=
  net w (fetches w + i)%nat target.

(** The world after the first failed attempt, and after the second. *)
Definition retry1 (target : jsstring) (w : World) : World :=
  afterSleep 0 (afterFetch target w).

Definition retry2 (target : jsstring) (w : World) : World :=
  afterSleep 1 (afterFetch target (retry1 target w)).

(** All three attempts of a check that starts in [w] fail. *)
Definition exhausted (w : World) (target : jsstring) : bool :=
  probeFails (answer w target 0) && probeFails (answer w target 1) &&
  probeFails (answer w target 2).

(** ** Results, files and reports *)

(** What [main] knows of the result of an entry: it bears the name of the
    entry, and it is the synthetic one when the entry is flagged. *)
Definition resultFor (f : FriendLink) (r : LinkCheckResult) : Prop :=
  res_name r = name f /\ res_url r = url f /\
  (truthy (disconnected f) = true ->
   status r = Some OK /\ avatarStatus r = Some OK /\ reason r = None).

(** The world with other contents of the two files. *)
Definition withFiles (w : World) (data : jsstring)
           (out : option (list DisconnectedInfo)) : World :=
  {| net := net w; random := random w; fetches := fetches w;
     randoms := randoms w; events := events w;
     dataFile := data; outputFile := out; fs := fs w |}.

(** The reason that is reported for a failed result: the page part, when
    the status of the page is not OK, with the error text in parentheses
    when there is one; the avatar part, when the status of the avatar is not
    OK; a comma and a space between the two. *)
Definition reasonText (r : LinkCheckResult) : jsstring :=
  (if notOk (status r)
   then lit "URL: " ++ statusTemplate (status r) ++
        match reason r with
        | Some (c :: text) => lit " (" ++ (c :: text) ++ lit ")"
        | _ => []
        end
   else []) ++
  (if notOk (status r) && notOk (avatarStatus r) then lit ", " else []) ++
  (if notOk (avatarStatus r)
   then lit "Avatar: " ++ statusTemplate (avatarStatus r)
   else []).

(** ** Inputs of the counterexamples and of the failing runs *)

(** The entry of an invalid address that quotes the marker: [fetch] rejects
    it with a message that repeats the address. *)
Definition friendBadUrl : FriendLink :=
  {| name := lit "Z"; description := lit "a friend"; url := marker;
     avatar := lit "https://z.example/a.png"; addDate := None;
     recommended := None; disconnected := None |}.

(** The network that rejects this address and answers every other
    request. *)
Definition worldBadUrl : World :=
  worldOf (fun _ u =>
             if jsstring_eqb u marker
             then Rejects (ErrorObject (lit "TypeError")
                                       (lit "Failed to parse URL from " ++ marker))
             else Resolves true 200 120)
          half.

(** The network that rejects the address of [friendBadUrl] in the same way,
    refuses every address under https://dead.example and answers every
    other request. *)
Definition worldMixed : World :=
  worldOf (fun _ u =>
             if jsstring_eqb u marker
             then Rejects (ErrorObject (lit "TypeError")
                                       (lit "Failed to parse URL from " ++ marker))
             else if startsWith (lit "https://dead.example") u
             then Rejects (ErrorObject (lit "TypeError") (lit "fetch failed"))
             else Resolves true 200 120)
          half.

(** An entry whose page and avatar are refused in [worldMixed] and in
    [worldDown]. *)
Definition friendDead : FriendLink := friendOf "D" "https://dead.example" None.

(** The world [w] with a file system on which the operation [op] rejects
    with [e]. *)
Definition withFailing (op : FileOp) (e : Thrown) (w : World) : World :=
  {| net := net w; random := random w; fetches := fetches w;
     randoms := randoms w; events := events w;
     dataFile := dataFile w; outputFile := outputFile w;
     fs := fun o =>
             match o, op with
             | ReadData, ReadData | WriteReport, WriteReport
             | WriteData, WriteData => Some e
             | _, _ => fs w o
             end |}.

(** The error of a file that may not be written. *)
Definition accessDenied : Thrown :=
  ErrorObject (lit "Error") (lit "EACCES: permission denied, open 'disconnected.json'").

(** The binary64 number nearest to 0.03. *)
Definition threeHundredths : Double :=
  {| mantissa := 8646911284551352; exponent := -58 |}.

(** The largest binary64 number below 1. *)
Definition belowOne : Double := {| mantissa := 2 ^ 53 - 1; exponent := -53 |}.

(** Two entries of one name: the first one is unreachable, the second one
    is flagged. *)
Definition namesakes : list FriendLink :=
  [friendOf "X" "https://dead.example" None;
   friendOf "X" "https://x.example" (Some true)].

(** The entry whose name is a double quote. *)
Definition friendQuote : FriendLink :=
  {| name := [dquote]; description := lit "a friend";
     url := lit "https://q.example"; avatar := lit "https://q.example/a.png";
     addDate := None; recommended := None; disconnected := None |}.

(** The first entries of the data file of the repository: the first one
    ends with a comma after its last field, which the pattern of an object
    does not allow, and the parser passes over it. *)
Definition dataFileExcerpt : jsstring :=
  fileHeader ++
  line "    {" ++
  lit "        name: " ++ [dquote] ++ lit "ATao-Blog" ++ [dquote] ++ line "," ++
  lit "        description: " ++ [dquote] ++
    [20570; 33258; 24049; 21916; 27426; 30340; 20107]%N ++ [dquote] ++ line "," ++
  lit "        url: " ++ [dquote] ++ lit "https://blog.atao.cyou/" ++ [dquote] ++ line "," ++
  lit "        avatar: " ++ [dquote] ++ lit "https://cdn.atao.cyou/Web/Avatar.png" ++
    [dquote] ++ line "," ++
  lit "        addDate: " ++ [dquote] ++ lit "2026-02-21" ++ [dquote] ++ line "," ++
  line "    }," ++
  line "    {" ++
  lit "        name: " ++ [dquote] ++ [26792; 23613; 20852]%N ++ [dquote] ++ line "," ++
  lit "        description: " ++ [dquote] ++ lit "A place for peace" ++ [dquote] ++ line "," ++
  lit "        url: " ++ [dquote] ++ lit "https://blog.ljx.icu" ++ [dquote] ++ line "," ++
  lit "        avatar: " ++ [dquote] ++ lit "https://blog.ljx.icu/favicon.png" ++
    [dquote] ++ line "," ++
  lit "        addDate: " ++ [dquote] ++ lit "2026-02-20" ++ [dquote] ++ line "," ++
  line "        recommended: true" ++
  line "    }," ++
  line "];".

(** ** Texts and matches *)

(** The longest prefix of [s] whose characters are in the class, and what
    follows it. *)
Fixpoint takeWhile (p : N -> bool) (s : jsstring) : jsstring :=
  match s with
  | c :: s' => if p c then c :: takeWhile p s' else []
  | [] => []
  end.

Fixpoint dropWhile (p : N -> bool) (s : jsstring) : jsstring :=
  match s with
  | c :: s' => if p c then dropWhile p s' else s
  | [] => []
  end.

(** A continuation that fails on every input whose first character is in
    the class: giving back characters of a greedy iteration is then of no
    use. *)
Definition rejects {R} (p : N -> bool) (k : Cont R) : Prop :=
  forall c s caps, p c = true -> k (c :: s) caps = None.

(** The characters of the class NotQuote. *)
Definition notQuote (c : N) : bool := negb (c =? dquote)%N.

(** The text starts with a character that is not white space. *)
Definition startsPlain (l : jsstring) : bool :=
  match l with
  | c :: _ => negb (isSpace c)
  | [] => false
  end.

(** ** The text of an entry *)

(** The line break and the indentation before a field. *)
Definition indent : jsstring := newline :: lit "        ".

(** A required field: its key, a space and its value between double quotes,
    then [rest]. *)
Definition fieldText (key : string) (v rest : jsstring) : jsstring :=
  indent ++ lit key ++ lit " " ++ dquote :: v ++ dquote :: rest.

(** The optional fields, each after a comma, then [rest]. *)
Definition dateText (d : option jsstring) (rest : jsstring) : jsstring :=
  if truthyText d
  then lit "," ++ indent ++ lit "addDate:" ++ lit " " ++ dquote :: default [] d
           ++ dquote :: rest
  else rest.

Definition flagText (key : string) (b : option bool) (rest : jsstring) : jsstring :=
  if truthy b
  then lit "," ++ indent ++ lit key ++ lit " " ++ lit "true" ++ rest
  else rest.

(** The closing brace on its line, then [rest]. *)
Definition closingText (rest : jsstring) : jsstring :=
  (newline :: lit "    ") ++ lit "}" ++ rest.

(** The text of an entry from its opening brace on, followed by [rest]. *)
Definition objectText (f : FriendLink) (rest : jsstring) : jsstring :=
  lit "{" ++
  fieldText "name:" (name f)
    (lit "," ++
     fieldText "description:" (description f)
       (lit "," ++
        fieldText "url:" (url f)
          (lit "," ++
           fieldText "avatar:" (avatar f)
             (dateText (addDate f)
                (flagText "recommended:" (recommended f)
                   (flagText "disconnected:" (disconnected f)
                      (closingText rest))))))).

(** The end of a block: the two characters that end the array. *)
Definition closing : jsstring := lit "];".

(** The text is not empty. *)
Definition present (v : jsstring) : bool :=
  match v with
  | [] => false
  | _ :: _ => true
  end.

(** A text that can stand between double quotes in the array. *)
Definition plainText (v : jsstring) : bool :=
  forallb notQuote v && negb (includes v closing).

(** The entries that the file format can hold: the four required fields
    are not empty, no text holds a double quote or the end of the array, a
    date is not empty, and a flag is absent or true. *)
Definition wellFormed (f : FriendLink) : bool :=
  present (name f) && plainText (name f) &&
  present (description f) && plainText (description f) &&
  present (url f) && plainText (url f) &&
  present (avatar f) && plainText (avatar f) &&
  match addDate f with
  | Some d => present d && plainText d
  | None => true
  end &&
  match recommended f with Some false => false | _ => true end &&
  match disconnected f with Some false => false | _ => true end.

(** The groups that the optional fields of an entry set. *)
Definition setDate (d : option jsstring) (caps : Captures) : Captures :=
  if truthyText d then setCapture 5 (default [] d) caps else caps.

Definition setFlag (i : nat) (b : option bool) (caps : Captures) : Captures :=
  if truthy b then setCapture i (lit "true") caps else caps.

(** Any character but the opening brace. *)
Definition notBrace (c : N) : bool := negb (c =? 123)%N.

(** The separator of the entries. *)
Definition separator : jsstring := lit "," ++ [newline].

(** Any character but the closing bracket. *)
Definition notBracket (c : N) : bool := negb (c =? 93)%N.

(** The declaration of the interface, which comes before the array. *)
Definition interfaceText : jsstring :=
  line "export interface FriendLink {" ++
  line "    name: string;" ++
  line "    description: string;" ++
  line "    url: string;" ++
  line "    avatar: string;" ++
  line "    addDate?: string;" ++
  line "    recommended?: boolean;" ++
  line "    disconnected?: boolean;" ++
  line "}" ++
  line "".

(** ** Patterns and the texts they match *)

(** [Matches r v caps caps']: the pattern [r] can match exactly the text
    [v], and turn the captures [caps] into [caps']. *)
Inductive Matches : Regex -> jsstring -> Captures -> Captures -> Prop :=
| M_Chars l caps : Matches (Chars l) l caps caps
| M_Star cl v caps :
    forallb (inClass cl) v = true -> Matches (Star cl) v caps caps
| M_LazyStar cl v caps :
    forallb (inClass cl) v = true -> Matches (LazyStar cl) v caps caps
| M_Plus cl v caps :
    v <> [] -> forallb (inClass cl) v = true -> Matches (Plus cl) v caps caps
| M_Seq r1 r2 v1 v2 caps caps1 caps2 :
    Matches r1 v1 caps caps1 -> Matches r2 v2 caps1 caps2 ->
    Matches (Seq r1 r2) (v1 ++ v2) caps caps2
| M_Alt_l r1 r2 v caps caps' :
    Matches r1 v caps caps' -> Matches (Alt r1 r2) v caps caps'
| M_Alt_r r1 r2 v caps caps' :
    Matches r2 v caps caps' -> Matches (Alt r1 r2) v caps caps'
| M_Opt_some r v caps caps' :
    Matches r v caps caps' -> Matches (Opt r) v caps caps'
| M_Opt_none r caps : Matches (Opt r) [] caps caps
| M_Group i r v caps caps' :
    Matches r v caps caps' -> Matches (Group i r) v caps (setCapture i v caps').

(** ** More worlds and entries *)

(** The entries that [checkLink] probes: those that are not flagged. *)
Definition probed (friends : list FriendLink) : list FriendLink :=
  List.filter (fun f => negb (truthy (disconnected f))) friends.

(** The first request is refused, every later one is answered with status
    200 after 80 ms. *)
Definition worldFlaky : World :=
  worldOf (fun n _ => match n with
                      | O => Rejects (ErrorObject (lit "TypeError") (lit "fetch failed"))
                      | S _ => Resolves true 200 80
                      end)
          half.

(** ** Time spent waiting *)

(** The sum of the sleeps in a log. *)
Fixpoint sleepTotal (es : list Event) : Z :=
  match es with
  | [] => 0
  | EvSleep d :: es' => d + sleepTotal es'
  | EvFetch _ :: es' => sleepTotal es'
  end.

(** The time that the script has slept between attempts, in ms. *)
Definition slept (w : World) : Z := sleepTotal (events w).

(** ** The declaration of the array *)

(** The declaration of the array as the pattern of [parseFriendsTs] reads
    it: the three pieces of white space are free, and [body] runs up to an
    end of array. *)
Definition declarationText (w1 w2 w3 body : jsstring) : jsstring :=
  lit "export const FRIEND_LINKS:" ++ w1 ++
  lit "FriendLink[]" ++ w2 ++
  lit "=" ++ w3 ++
  lit "[" ++ body ++ closing.

(** The text holds a declaration of the array. *)
Definition declares (content : jsstring) : Prop :=
  exists pre w1 w2 w3 body rest,
    forallb isSpace w1 = true /\ forallb isSpace w2 = true /\
    forallb isSpace w3 = true /\
    content = pre ++ declarationText w1 w2 w3 body ++ rest.

(** The error that [parseFriendsTs] throws. *)
Definition parseError : Thrown := ErrorObject (lit "Error") parseErrorMessage.

(** An entry as the file format keeps it: an empty date and a flag that is
    [false] are not written. *)
Definition normalize (f : FriendLink) : FriendLink :=
  {| name := name f; description := description f; url := url f;
     avatar := avatar f;
     addDate := if truthyText (addDate f) then addDate f else None;
     recommended := if truthy (recommended f) then Some true else None;
     disconnected := if truthy (disconnected f) then Some true else None |}.

(** An entry with an empty date and flags that are [false]. *)
Definition friendVerbose : FriendLink :=
  {| name := lit "A"; description := lit "a friend"; url := lit "https://a.example";
     avatar := lit "https://a.example/avatar.png"; addDate := Some [];
     recommended := Some false; disconnected := Some false |}.

(** The two entries differ in their flag [disconnected] at most. *)
Definition sameButFlag (f g : FriendLink) : Prop :=
  setDisconnected g (disconnected f) = f.

(** ** Entries written by hand *)

(** The comma that a hand-written file may have after the last field of an
    entry. *)
Definition lastComma (comma : bool) : jsstring := if comma then lit "," else [].

(** The text of an entry from its opening brace on, with or without a comma
    after its last field, followed by [rest]. *)
Definition objectTextWith (comma : bool) (f : FriendLink) (rest : jsstring) : jsstring :=
  lit "{" ++
  fieldText "name:" (name f)
    (lit "," ++
     fieldText "description:" (description f)
       (lit "," ++
        fieldText "url:" (url f)
          (lit "," ++
           fieldText "avatar:" (avatar f)
             (dateText (addDate f)
                (flagText "recommended:" (recommended f)
                   (flagText "disconnected:" (disconnected f)
                      (lastComma comma ++ closingText rest))))))).

(** An entry of a hand-written file: whether a comma follows its last
    field, and its fields. *)
Definition writtenEntry (e : bool * FriendLink) : jsstring :=
  lit "    " ++ objectTextWith e.1 e.2 [].

(** A data file in the layout of the generator whose entries may have a
    comma after their last field. *)
Definition handWritten (entries : list (bool * FriendLink)) : jsstring :=
  fileHeader ++ join separator (map writtenEntry entries) ++ line "," ++ line "];".

(** No text of the entry holds an opening brace. *)
Definition noBrace (f : FriendLink) : bool :=
  forallb notBrace (name f) && forallb notBrace (description f) &&
  forallb notBrace (url f) && forallb notBrace (avatar f) &&
  forallb notBrace (default [] (addDate f)).

(** The entries that the parser reads: those without the comma. *)
Definition readable (entries : list (bool * FriendLink)) : list FriendLink :=
  map snd (List.filter (fun e => negb e.1) entries).

(** The first two entries of the data file of the repository: a comma
    follows the last field of the first one. *)
Definition excerptEntries : list (bool * FriendLink) :=
  [ (true,
     {| name := lit "ATao-Blog";
        description := [20570; 33258; 24049; 21916; 27426; 30340; 20107]%N;
        url := lit "https://blog.atao.cyou/";
        avatar := lit "https://cdn.atao.cyou/Web/Avatar.png";
        addDate := Some (lit "2026-02-21"); recommended := None;
        disconnected := None |});
    (false,
     {| name := [26792; 23613; 20852]%N; description := lit "A place for peace";
        url := lit "https://blog.ljx.icu";
        avatar := lit "https://blog.ljx.icu/favicon.png";
        addDate := Some (lit "2026-02-20"); recommended := Some true;
        disconnected := None |}) ].

(** ** Consecutive runs *)

(** The results of the pass over the entries that starts in [w]. *)
Definition resultsOf (friends : list FriendLink) (w : World) : list LinkCheckResult :=
  match (checkAll friends w).1 with
  | Returns results => results
  | _ => []
  end.

(** The world in which the next run starts: the files are those that the
    run in [w] left, the network and the random numbers are any. *)
Definition nextRun (w w2 : World) : Prop :=
  dataFile w2 = dataFile (main w).2.

(** * Properties *)

(** ** The monad *)

Lemma bind_returns {A B} (c : M A) (f : A -> M B) w a w' :
  c w = (Returns a, w') -> (c ≫= f) w = f a w'.
Proof. intros H. unfold mbind, M_bind. by rewrite H. Qed.

(** ** Probes *)

Lemma fetchUrl_spec target w :
  fetchUrl target w =
  (match net w (fetches w) target with
   | Resolves o c t => Returns {| ok := o; code := c; time := t |}
   | Rejects e => Throws e
   end, afterFetch target w).
Proof.
  unfold fetchUrl, mbind, M_bind, fetch. simpl.
  destruct (net w (fetches w) target); reflexivity.
Qed.

Lemma attempt_success target i w c t :
  net w (fetches w) target = Resolves true c t ->
  attempt target i w =
  (Returns (inl {| ok := true; code := c; time := t |}), afterFetch target w).
Proof.
  intros H. unfold attempt, tryCatch, mbind, M_bind.
  rewrite fetchUrl_spec, H. reflexivity.
Qed.

Lemma attempt_failure target i w :
  probeFails (net w (fetches w) target) = true ->
  attempt target i w =
  (Returns (inr (caughtError (net w (fetches w) target))),
   if (i <? MAX_RETRIES - 1)%nat
   then afterSleep i (afterFetch target w)
   else afterFetch target w).
Proof.
  intros H. unfold attempt, tryCatch, mbind, M_bind.
  rewrite fetchUrl_spec.
  destruct (net w (fetches w) target) as [[|] c t|e];
    cbn [probeFails] in H; try discriminate;
    cbn [negb ok caughtError]; unfold throw, mathRandom, sleep, emit;
    destruct (i <? MAX_RETRIES - 1)%nat; reflexivity.
Qed.

(** ** The jitter

    The product of a number in [0, 1) and 100 is rounded, and the rounded
    product is still below 100: the largest such number is 1 - 2^-53, its
    exact product with 100 is 100 - 100 * 2^-53, and the nearest binary64
    number to it is 100 - 2^-46. *)

Lemma roundShift_nonneg x s : 0 <= x -> 0 <= roundShift x s.
Proof.
  intros Hx. unfold roundShift.
  assert (0 <= Z.shiftr x s) by (by apply Z.shiftr_nonneg).
  repeat case_match; lia.
Qed.

Lemma roundShift_upper x s :
  0 <= x -> 0 < s -> roundShift x s * 2 ^ s <= x + 2 ^ (s - 1).
Proof.
  intros Hx Hs. unfold roundShift.
  rewrite Z.shiftr_div_pow2, !Z.shiftl_mul_pow2 by lia.
  assert (2 ^ s = 2 * 2 ^ (s - 1)) as Hp.
  { rewrite <- Z.pow_succ_r by lia. f_equal. lia. }
  assert (0 < 2 ^ (s - 1)) by (apply Z.pow_pos_nonneg; lia).
  pose proof (Z.div_mod x (2 ^ s) ltac:(lia)) as Hdm.
  pose proof (Z.mod_pos_bound x (2 ^ s) ltac:(lia)) as Hm.
  set (q := x / 2 ^ s) in *. set (h := 2 ^ (s - 1)) in *.
  assert (q * 2 ^ s <= x) by lia.
  repeat case_match; lia.
Qed.

Lemma jitter_range (r : Double) :
  inUnitInterval r -> 0 <= mathFloor (times r hundred) < 100.
Proof.
  destruct r as [m e]. unfold inUnitInterval. cbn [mantissa exponent].
  intros (Hm & He & Hlt).
  assert (e <= 0) as He0.
  { destruct (Z.le_gt_cases e 0); [done|]. rewrite Z.pow_neg_r in Hlt by lia. lia. }
  unfold times, round64, hundred, mathFloor. cbn [mantissa exponent].
  rewrite Z.add_0_r.
  set (M := m * 100).
  assert (0 <= M < 100 * 2 ^ 53) as HM by lia.
  assert (Z.log2 M <= 59) as Hlog.
  { destruct (Z.eq_dec M 0) as [->|]; [done|].
    apply Z.lt_succ_r, Z.log2_lt_pow2; [lia|]. change (2 ^ Z.succ 59) with (128 * 2 ^ 53). lia. }
  set (P := 2 ^ (- e)) in *.
  assert (0 < P) by (apply Z.pow_pos_nonneg; lia).
  assert (M <= 100 * P - 100) as HMP by lia.
  set (s := Z.max 0 (Z.max (Z.log2 M - 52) (-1074 - e))).
  assert (s = 0 \/ (0 < s <= 7 /\ s = Z.log2 M - 52)) as [Hs|[Hs Hs']] by lia.
  - rewrite Hs. unfold roundShift. cbn [Z.leb Z.compare]. rewrite Z.add_0_r.
    rewrite Z.shiftl_div_pow2 by lia. fold P. split.
    + apply Z.div_pos; lia.
    + apply Z.div_lt_upper_bound; lia.
  - assert (2 ^ (52 + s) <= M) as Hlow.
    { replace (52 + s) with (Z.log2 M) by lia. apply Z.log2_spec. 
      destruct (Z.eq_dec M 0) as [E|]; [rewrite E in Hs'; cbn in Hs'; lia|lia]. }
    pose proof (roundShift_upper M s ltac:(lia) ltac:(lia)) as Hup.
    pose proof (roundShift_nonneg M s ltac:(lia)) as Hnn.
    set (n := roundShift M s) in *.
    assert (2 ^ (s - 1) <= 64) as Hhalf.
    { change 64 with (2 ^ 6). apply Z.pow_le_mono_r; lia. }
    assert (s <= - e) as Hse.
    { destruct (Z.le_gt_cases s (- e)); [done|]. exfalso.
      assert (P <= 2 ^ (s - 1)) by (apply Z.pow_le_mono_r; lia).
      assert (2 ^ (52 + s) = 2 ^ 53 * 2 ^ (s - 1)) as Hp.
      { rewrite <- Z.pow_add_r by lia. f_equal. lia. }
      assert (0 < 2 ^ (s - 1)) by (apply Z.pow_pos_nonneg; lia).
      nia. }
    rewrite Z.shiftl_div_pow2 by lia.
    assert (P = 2 ^ (- (e + s)) * 2 ^ s) as HP.
    { unfold P. rewrite <- Z.pow_add_r by lia. f_equal. lia. }
    assert (0 < 2 ^ (- (e + s))) by (apply Z.pow_pos_nonneg; lia).
    assert (0 < 2 ^ s) by (apply Z.pow_pos_nonneg; lia).
    split.
    + apply Z.div_pos; lia.
    + apply Z.div_lt_upper_bound; [lia|]. nia.
Qed.

(** The product is rounded: for the number nearest to 0.03 the exact
    product is below 3 and the rounded one is 3; for the largest number
    below 1 the rounded product stays below 100. *)
Example delays_of_rounded_products :
  inUnitInterval threeHundredths /\ inUnitInterval belowOne /\
  times threeHundredths hundred = {| mantissa := 3 * 2 ^ 51; exponent := -51 |} /\
  retryDelay 0 threeHundredths = 1003 /\
  mantissa threeHundredths * 100 < 3 * 2 ^ 58 /\
  retryDelay 0 belowOne = 1099 /\ retryDelay 1 belowOne = 2099.
Proof. repeat split; by vm_compute. Qed.

Lemma retryDelay_range (i : nat) (r : Double) :
  inUnitInterval r ->
  1000 * 2 ^ Z.of_nat i <= retryDelay i r < 1000 * 2 ^ Z.of_nat i + 100.
Proof.
  intros Hr. unfold retryDelay, RETRY_DELAY.
  pose proof (jitter_range r Hr). lia.
Qed.

(** ** The retry loop *)

Lemma answer_0 w target : net w (fetches w) target = answer w target 0.
Proof. unfold answer. by rewrite Nat.add_0_r. Qed.

Lemma answer_1 w target : net w (S (fetches w)) target = answer w target 1.
Proof. unfold answer. by rewrite Nat.add_1_r. Qed.

Lemma answer_2 w target : net w (S (S (fetches w))) target = answer w target 2.
Proof. unfold answer. f_equal. lia. Qed.

Lemma probeFails_false raw :
  probeFails raw = false -> exists c t, raw = Resolves true c t.
Proof. destruct raw as [[|] c t|e]; try discriminate. eauto. Qed.

Ltac loop_step lem :=
  erewrite bind_returns by (eapply lem; eassumption);
  cbv beta iota;
  change (0 <? MAX_RETRIES - 1)%nat with true;
  change (1 <? MAX_RETRIES - 1)%nat with true;
  change (2 <? MAX_RETRIES - 1)%nat with false;
  cbv beta iota.

Lemma retryLoop_first target w c t :
  answer w target 0 = Resolves true c t ->
  retryLoop target MAX_RETRIES 0 None w =
  (Returns (Some {| ok := true; code := c; time := t |}, None), afterFetch target w).
Proof.
  intros H. rewrite <- answer_0 in H. cbn [retryLoop MAX_RETRIES].
  loop_step attempt_success. reflexivity.
Qed.

Lemma retryLoop_second target w c t :
  probeFails (answer w target 0) = true ->
  answer w target 1 = Resolves true c t ->
  retryLoop target MAX_RETRIES 0 None w =
  (Returns (Some {| ok := true; code := c; time := t |},
            Some (caughtError (answer w target 0))),
   afterFetch target (retry1 target w)).
Proof.
  intros H0 H1. rewrite <- answer_0 in *. rewrite <- answer_1 in H1.
  cbn [retryLoop MAX_RETRIES].
  loop_step attempt_failure.
  loop_step attempt_success. reflexivity.
Qed.

Lemma retryLoop_third target w c t :
  probeFails (answer w target 0) = true ->
  probeFails (answer w target 1) = true ->
  answer w target 2 = Resolves true c t ->
  retryLoop target MAX_RETRIES 0 None w =
  (Returns (Some {| ok := true; code := c; time := t |},
            Some (caughtError (answer w target 1))),
   afterFetch target (retry2 target w)).
Proof.
  intros H0 H1 H2. rewrite <- answer_0 in *. rewrite <- answer_1 in *.
  rewrite <- answer_2 in H2. cbn [retryLoop MAX_RETRIES].
  loop_step attempt_failure.
  loop_step attempt_failure.
  loop_step attempt_success. reflexivity.
Qed.

Lemma retryLoop_exhausted target w :
  probeFails (answer w target 0) = true ->
  probeFails (answer w target 1) = true ->
  probeFails (answer w target 2) = true ->
  retryLoop target MAX_RETRIES 0 None w =
  (Returns (None, Some (caughtError (answer w target 2))),
   afterFetch target (retry2 target w)).
Proof.
  intros H0 H1 H2. rewrite <- answer_0 in *. rewrite <- answer_1 in *.
  rewrite <- answer_2 in *. cbn [retryLoop MAX_RETRIES].
  loop_step attempt_failure.
  loop_step attempt_failure.
  loop_step attempt_failure. reflexivity.
Qed.

(** A resource check always returns; it neither throws nor exits. *)
Lemma retryLoop_returns target w :
  exists res w', retryLoop target MAX_RETRIES 0 None w = (Returns res, w')
                 /\ random w' = random w /\ net w' = net w
                 /\ dataFile w' = dataFile w /\ outputFile w' = outputFile w.
Proof.
  destruct (probeFails (answer w target 0)) eqn:H0.
  2: { apply probeFails_false in H0 as (c & t & H0).
       eexists _, _. split; [by eapply retryLoop_first|done]. }
  destruct (probeFails (answer w target 1)) eqn:H1.
  2: { apply probeFails_false in H1 as (c & t & H1).
       eexists _, _. split; [by eapply retryLoop_second|done]. }
  destruct (probeFails (answer w target 2)) eqn:H2.
  2: { apply probeFails_false in H2 as (c & t & H2).
       eexists _, _. split; [by eapply retryLoop_third|done]. }
  eexists _, _. split; [by eapply retryLoop_exhausted|done].
Qed.

Lemma failureStatus_caught raw :
  failureStatus (Some (caughtError raw)) = if aborted raw then TIMEOUT else ERROR.
Proof. by destruct raw as [o c t|[n m|t]]. Qed.

(** ** checkLink *)

Lemma checkLink_unfold friend w res1 w1 res2 w2 :
  truthy (disconnected friend) = false ->
  retryLoop (url friend) MAX_RETRIES 0 None w = (Returns res1, w1) ->
  retryLoop (avatar friend) MAX_RETRIES 0 None w1 = (Returns res2, w2) ->
  checkLink friend w =
  (Returns
     {| res_name := name friend; res_url := url friend;
        res_avatar := avatar friend;
        status := Some (match res1.1 with Some _ => OK | None => failureStatus res1.2 end);
        httpStatus := code <$> res1.1;
        responseTime := Some (match res1.1 with Some res => time res | None => 0 end);
        reason := match res1.1 with
                  | Some _ => None
                  | None => err_message <$> res1.2
                  end;
        avatarStatus := Some (match res2.1 with Some _ => OK | None => failureStatus res2.2 end);
        avatarHttpStatus := code <$> res2.1;
        avatarResponseTime := Some (match res2.1 with Some res => time res | None => 0 end) |},
   w2).
Proof.
  intros Hd H1 H2. unfold checkLink. rewrite Hd.
  erewrite bind_returns by eassumption.
  erewrite bind_returns by eassumption. reflexivity.
Qed.

Lemma checkLink_returns friend w :
  exists r w', checkLink friend w = (Returns r, w') /\
               res_name r = name friend /\
               random w' = random w /\ net w' = net w /\
               dataFile w' = dataFile w /\ outputFile w' = outputFile w.
Proof.
  destruct (truthy (disconnected friend)) eqn:Hd.
  - unfold checkLink. rewrite Hd. by eexists _, _.
  - destruct (retryLoop_returns (url friend) w) as (res1 & w1 & L1 & ? & ? & ? & ?).
    destruct (retryLoop_returns (avatar friend) w1) as (res2 & w2 & L2 & ? & ? & ? & ?).
    eexists _, _. split; [by eapply checkLink_unfold|].
    simpl. repeat split; congruence.
Qed.

Lemma checkLink_flagged (friend : FriendLink) (w : World) :
  disconnected friend = Some true ->
  exists r, checkLink friend w = (Returns r, w) /\
            status r = Some OK /\ avatarStatus r = Some OK /\
            responseTime r = Some 0 /\ avatarResponseTime r = Some 0.
Proof.
  intros Hd. unfold checkLink. rewrite Hd. cbn [truthy].
  eexists. split; [reflexivity|]. done.
Qed.

(** C1. An entry that is flagged [disconnected] on input is not probed: the
    world, with its count of requests and its log of probes and sleeps, is
    left as it was, and the result is the synthetic one, with status OK and
    latency 0 for the page and for the avatar. *)
Theorem checkLink_skips_disconnected (friend : FriendLink) (w : World) :
  disconnected friend = Some true ->
  exists r, checkLink friend w = (Returns r, w) /\
            status r = Some OK /\ avatarStatus r = Some OK /\
            responseTime r = Some 0 /\ avatarResponseTime r = Some 0.
Proof.
  intros Hd. unfold checkLink. rewrite Hd. cbn [truthy].
  eexists. split; [reflexivity|].
  cbn [status avatarStatus responseTime avatarResponseTime]. by repeat split.
Qed.

Lemma checkLink_skips_disconnected_witness :
  disconnected (friendOf "X" "https://x.example" (Some true)) = Some true /\
  exists r,
    checkLink (friendOf "X" "https://x.example" (Some true)) worldDown
    = (Returns r, worldDown) /\
    status r = Some OK /\ avatarStatus r = Some OK /\
    responseTime r = Some 0 /\ avatarResponseTime r = Some 0.
Proof.
  split; [reflexivity|].
  apply (checkLink_skips_disconnected
           (friendOf "X" "https://x.example" (Some true)) worldDown).
  reflexivity.
Defined.



(** C7. When the three attempts on a resource all fail, its status is
    TIMEOUT if the last attempt was aborted by the timer and ERROR
    otherwise, and its recorded latency is 0; this holds for the page, whose
    check starts in the initial world, and for the avatar, whose check
    starts in the world that the check of the page leaves. *)
Theorem exhausted_resource_status (friend : FriendLink) (w : World) :
  truthy (disconnected friend) = false ->
  exists r w1 w',
    (retryLoop (url friend) MAX_RETRIES 0 None w).2 = w1 /\
    checkLink friend w = (Returns r, w') /\
    (exhausted w (url friend) = true ->
     status r = Some (if aborted (answer w (url friend) 2) then TIMEOUT else ERROR) /\
     responseTime r = Some 0) /\
    (exhausted w1 (avatar friend) = true ->
     avatarStatus r =
       Some (if aborted (answer w1 (avatar friend) 2) then TIMEOUT else ERROR) /\
     avatarResponseTime r = Some 0).
Proof.
  intros Hd.
  destruct (retryLoop_returns (url friend) w) as (res1 & w1 & H1 & _).
  destruct (retryLoop_returns (avatar friend) w1) as (res2 & w2 & H2 & _).
  eexists _, w1, w2. split; [by rewrite H1|].
  split; [by eapply checkLink_unfold|]. cbn [status responseTime avatarStatus avatarResponseTime].
  split; intros He; unfold exhausted in He;
    apply andb_prop in He as [He Hc]; apply andb_prop in He as [Ha Hb].
  - rewrite (retryLoop_exhausted _ _ Ha Hb Hc) in H1. injection H1 as <- _.
    cbn [fst snd]. by rewrite failureStatus_caught.
  - rewrite (retryLoop_exhausted _ _ Ha Hb Hc) in H2. injection H2 as <- _.
    cbn [fst snd]. by rewrite failureStatus_caught.
Qed.

Lemma exhausted_resource_status_witness :
  truthy (disconnected (friendOf "Y" "https://dead.example" None)) = false /\
  exists r w1 w',
    (retryLoop (url (friendOf "Y" "https://dead.example" None))
               MAX_RETRIES 0 None worldSilent).2 = w1 /\
    checkLink (friendOf "Y" "https://dead.example" None) worldSilent = (Returns r, w') /\
    (exhausted worldSilent (url (friendOf "Y" "https://dead.example" None)) = true ->
     status r =
       Some (if aborted (answer worldSilent
                                (url (friendOf "Y" "https://dead.example" None)) 2)
             then TIMEOUT else ERROR) /\
     responseTime r = Some 0) /\
    (exhausted w1 (avatar (friendOf "Y" "https://dead.example" None)) = true ->
     avatarStatus r =
       Some (if aborted (answer w1 (avatar (friendOf "Y" "https://dead.example" None)) 2)
             then TIMEOUT else ERROR) /\
     avatarResponseTime r = Some 0).
Proof.
  split; [reflexivity|].
  apply (exhausted_resource_status (friendOf "Y" "https://dead.example" None) worldSilent).
  reflexivity.
Defined.

(** Scenario B of the specification: every probe times out. *)
Example scenario_timeout :
  exists r w',
    checkLink (friendOf "Y" "https://dead.example" None) worldSilent = (Returns r, w') /\
    status r = Some TIMEOUT /\ avatarStatus r = Some TIMEOUT /\
    fetches w' = 6%nat.
Proof. eexists _, _. split; [vm_compute; reflexivity|]. by vm_compute. Qed.

Ltac retry_cases :=
  repeat split; try lia; try done; try (by eexists);
  try (by intros [? ?]);
  try (match goal with
       | H : _ !! ?i = Some _ |- _ =>
           destruct i as [|[|[|?]]]; cbn in H; simplify_eq;
           change (Z.of_nat 0) with 0 in *; change (Z.of_nat 1) with 1 in *; lia
       end);
  try (intros [|[|[|i]]] Hi; first [done | lia]).

(** C8. A resource check makes between one and three probes. It stops at
    the first probe that succeeds: the [n - 1] probes before the last one
    failed, the check reports success exactly when the last probe succeeded,
    and a check of fewer than three probes succeeded. Between two probes it
    sleeps once, and the [i]-th sleep, which follows the failed attempt of
    index [i], lasts at least [1000 * 2^i] and less than [1000 * 2^i + 100]
    milliseconds. *)
Theorem retry_bound_and_backoff (target : jsstring) (w : World) :
  fairRandom w ->
  exists (n : nat) (delays : list Z)
         (res : option FetchResult * option ErrorValue) (w' : World),
    retryLoop target MAX_RETRIES 0 None w = (Returns res, w') /\
    (1 <= n <= 3)%nat /\
    fetches w' = (fetches w + n)%nat /\
    length delays = (n - 1)%nat /\
    events w' = events w ++ probesAndSleeps target delays /\
    (forall i d, delays !! i = Some d ->
                 1000 * 2 ^ Z.of_nat i <= d < 1000 * 2 ^ Z.of_nat i + 100) /\
    (forall i, (i < n - 1)%nat -> probeFails (answer w target i) = true) /\
    (probeFails (answer w target (n - 1)) = false <-> is_Some res.1) /\
    ((n < 3)%nat -> is_Some res.1).
Proof.
  intros Hr.
  pose proof (retryDelay_range 0 _ (Hr (randoms w))) as D0.
  pose proof (retryDelay_range 1 _ (Hr (S (randoms w)))) as D1.
  destruct (probeFails (answer w target 0)) eqn:H0.
  2: { destruct (probeFails_false _ H0) as (c & t & E0).
       eexists 1%nat, [], _, _. split; [by eapply retryLoop_first|].
       cbn [fetches afterFetch events length probesAndSleeps fst Nat.sub].
       rewrite H0. retry_cases. }
  destruct (probeFails (answer w target 1)) eqn:H1.
  2: { destruct (probeFails_false _ H1) as (c & t & E1).
       eexists 2%nat, [retryDelay 0 (random w (randoms w))], _, _.
       split; [by eapply retryLoop_second|].
       cbn [fetches afterFetch afterSleep retry1 events length probesAndSleeps fst
            random randoms Nat.sub].
       rewrite <- !app_assoc, H1. retry_cases. }
  destruct (probeFails (answer w target 2)) eqn:H2.
  2: { destruct (probeFails_false _ H2) as (c & t & E2).
       eexists 3%nat, [retryDelay 0 (random w (randoms w));
                       retryDelay 1 (random w (S (randoms w)))], _, _.
       split; [by eapply retryLoop_third|].
       cbn [fetches afterFetch afterSleep retry1 retry2 events length probesAndSleeps
            fst random randoms Nat.sub].
       rewrite <- !app_assoc, H2. retry_cases. }
  eexists 3%nat, [retryDelay 0 (random w (randoms w));
                  retryDelay 1 (random w (S (randoms w)))], _, _.
  split; [by eapply retryLoop_exhausted|].
  cbn [fetches afterFetch afterSleep retry1 retry2 events length probesAndSleeps
       fst random randoms Nat.sub].
  rewrite <- !app_assoc, H2. retry_cases.
Qed.

Lemma retry_bound_and_backoff_witness :
  fairRandom worldDown /\
  exists (n : nat) (delays : list Z)
         (res : option FetchResult * option ErrorValue) (w' : World),
    retryLoop (lit "https://dead.example") MAX_RETRIES 0 None worldDown
    = (Returns res, w') /\
    (1 <= n <= 3)%nat /\
    fetches w' = (fetches worldDown + n)%nat /\
    length delays = (n - 1)%nat /\
    events w' = events worldDown ++ probesAndSleeps (lit "https://dead.example") delays /\
    (forall i d, delays !! i = Some d ->
                 1000 * 2 ^ Z.of_nat i <= d < 1000 * 2 ^ Z.of_nat i + 100) /\
    (forall i, (i < n - 1)%nat ->
               probeFails (answer worldDown (lit "https://dead.example") i) = true) /\
    (probeFails (answer worldDown (lit "https://dead.example") (n - 1)) = false
     <-> is_Some res.1) /\
    ((n < 3)%nat -> is_Some res.1).
Proof.
  split; [intros n; repeat split; by compute|].
  apply (retry_bound_and_backoff (lit "https://dead.example") worldDown).
  intros n. repeat split; by compute.
Defined.

(** The three probes and two sleeps of a check whose probes all fail. *)
Example backoff_of_dead_link :
  events (retryLoop (lit "u") MAX_RETRIES 0 None worldDown).2
  = [EvFetch (lit "u"); EvSleep 1050; EvFetch (lit "u"); EvSleep 2050;
     EvFetch (lit "u")].
Proof. by vm_compute. Qed.

(** ** Strings *)

Lemma jsstring_eqb_eq (a b : jsstring) : jsstring_eqb a b = true <-> a = b.
Proof.
  revert b. induction a as [|x a IH]; intros [|y b]; cbn [jsstring_eqb]; try done.
  rewrite andb_true_iff, N.eqb_eq, IH. split; [intros [-> ->]|intros [= -> ->]]; done.
Qed.

Lemma jsstring_eqb_refl (a : jsstring) : jsstring_eqb a a = true.
Proof. by apply jsstring_eqb_eq. Qed.

Lemma jsstring_eqb_neq (a b : jsstring) : a <> b -> jsstring_eqb a b = false.
Proof.
  intros H. destruct (jsstring_eqb a b) eqn:E; [|done].
  by apply jsstring_eqb_eq in E.
Qed.

(** ** Checking every entry *)

Lemma checkLink_resultFor friend w :
  exists r w', checkLink friend w = (Returns r, w') /\ resultFor friend r /\
               random w' = random w /\ net w' = net w /\
               dataFile w' = dataFile w /\ outputFile w' = outputFile w.
Proof.
  destruct (truthy (disconnected friend)) eqn:Hd.
  - unfold checkLink. rewrite Hd. eexists _, _. split; [reflexivity|].
    by repeat split.
  - destruct (retryLoop_returns (url friend) w) as (res1 & w1 & L1 & ? & ? & ? & ?).
    destruct (retryLoop_returns (avatar friend) w1) as (res2 & w2 & L2 & ? & ? & ? & ?).
    eexists _, _. split; [by eapply checkLink_unfold|].
    repeat split; try done; congruence.
Qed.

(** The checks leave the file system alone. *)
Lemma retryLoop_fs target w : fs (retryLoop target MAX_RETRIES 0 None w).2 = fs w.
Proof.
  destruct (probeFails (answer w target 0)) eqn:H0.
  2: { apply probeFails_false in H0 as (c & t & H0).
       by erewrite retryLoop_first. }
  destruct (probeFails (answer w target 1)) eqn:H1.
  2: { apply probeFails_false in H1 as (c & t & H1).
       by erewrite retryLoop_second. }
  destruct (probeFails (answer w target 2)) eqn:H2.
  2: { apply probeFails_false in H2 as (c & t & H2).
       by erewrite retryLoop_third. }
  by erewrite retryLoop_exhausted.
Qed.

Lemma checkLink_fs friend w : fs (checkLink friend w).2 = fs w.
Proof.
  destruct (truthy (disconnected friend)) eqn:Hd.
  - unfold checkLink. by rewrite Hd.
  - destruct (retryLoop_returns (url friend) w) as (res1 & w1 & L1 & _).
    destruct (retryLoop_returns (avatar friend) w1) as (res2 & w2 & L2 & _).
    erewrite checkLink_unfold by eassumption. cbn [snd].
    pose proof (retryLoop_fs (url friend) w) as F1.
    pose proof (retryLoop_fs (avatar friend) w1) as F2.
    rewrite L1 in F1. rewrite L2 in F2. cbn [snd] in *. congruence.
Qed.

Lemma checkAll_fs friends w : fs (checkAll friends w).2 = fs w.
Proof.
  revert w. induction friends as [|f friends IH]; intros w; [done|].
  cbn [checkAll]. destruct (checkLink_returns f w) as (r & w1 & Hc & _).
  pose proof (checkLink_fs f w) as F1. rewrite Hc in F1. cbn [snd] in F1.
  erewrite bind_returns by eassumption.
  specialize (IH w1). unfold mbind, M_bind, mret, M_ret.
  destruct (checkAll friends w1) as [[rs|e|n] w2]; cbn [snd] in *; congruence.
Qed.

Lemma checkAll_spec friends w :
  exists results w', checkAll friends w = (Returns results, w') /\
                     Forall2 resultFor friends results /\
                     dataFile w' = dataFile w /\ outputFile w' = outputFile w.
Proof.
  revert w. induction friends as [|f friends IH]; intros w.
  - exists [], w. by repeat split.
  - destruct (checkLink_resultFor f w) as (r & w1 & Hc & Hr & _ & _ & Hd & Ho).
    destruct (IH w1) as (rs & w2 & Ha & Hrs & Hd' & Ho').
    exists (r :: rs), w2. cbn [checkAll].
    erewrite bind_returns by eassumption.
    erewrite bind_returns by eassumption.
    repeat split; [by constructor|congruence..].
Qed.

(** ** The two branches of main *)

Lemma withFiles_same w : withFiles w (dataFile w) (outputFile w) = w.
Proof. by destruct w. Qed.

(** What [main] does after the pass over the entries. A write that rejects
    ends [main] with its error: in the branch with failures the process
    does not reach [process.exit(1)]. *)
Lemma checkAndUpdate_cases friends w results w1 :
  checkAll friends w = (Returns results, w1) ->
  checkAndUpdate friends w =
  if (0 <? length (failed results))%nat
  then match fs w WriteReport with
       | Some e => (Throws e, w1)
       | None =>
           if hasChanges (updatedFriends friends results) friends
           then match fs w WriteData with
                | Some e =>
                    (Throws e,
                     withFiles w1 (dataFile w1)
                               (Some (disconnectedList (failed results))))
                | None =>
                    (Exits 1,
                     withFiles w1 (generateFriendsTs (updatedFriends friends results))
                               (Some (disconnectedList (failed results))))
                end
           else (Exits 1,
                 withFiles w1 (dataFile w1)
                           (Some (disconnectedList (failed results))))
       end
  else if (0 <? length (recoveredFriends friends))%nat
       then match fs w WriteData with
            | Some e => (Throws e, w1)
            | None =>
                (Returns tt,
                 withFiles w1 (generateFriendsTs (clearedFriends friends))
                           (outputFile w1))
            end
       else (Returns tt, w1).
Proof.
  intros H. unfold checkAndUpdate. erewrite bind_returns by eassumption.
  assert (fs w1 = fs w) as F.
  { pose proof (checkAll_fs friends w) as F. by rewrite H in F. }
  rewrite <- F.
  destruct (0 <? length (failed results))%nat.
  - unfold mbind, M_bind, writeOutputFile, writeDataFile, processExit.
    destruct (fs w1 WriteReport); [done|].
    destruct (hasChanges _ _); cbn [fs]; [|done].
    by destruct (fs w1 WriteData).
  - destruct (0 <? length (recoveredFriends friends))%nat; [|done].
    unfold writeDataFile. by destruct (fs w1 WriteData).
Qed.

(** The two branches when the file operations succeed. *)
Lemma checkAndUpdate_spec friends w results w1 :
  diskOk w ->
  checkAll friends w = (Returns results, w1) ->
  checkAndUpdate friends w =
  if (0 <? length (failed results))%nat
  then (Exits 1,
        withFiles w1
          (if hasChanges (updatedFriends friends results) friends
           then generateFriendsTs (updatedFriends friends results)
           else dataFile w1)
          (Some (disconnectedList (failed results))))
  else (Returns tt,
        withFiles w1
          (if (0 <? length (recoveredFriends friends))%nat
           then generateFriendsTs (clearedFriends friends)
           else dataFile w1)
          (outputFile w1)).
Proof.
  intros Hok H. rewrite (checkAndUpdate_cases _ _ _ _ H), !Hok.
  destruct (0 <? length (failed results))%nat.
  - by destruct (hasChanges _ _).
  - destruct (0 <? length (recoveredFriends friends))%nat; [done|].
    by rewrite withFiles_same.
Qed.

(** ** Reconciliation *)

Lemma setDisconnected_same f : setDisconnected f (disconnected f) = f.
Proof. by destruct f. Qed.

Lemma setDisconnected_twice f a b :
  setDisconnected (setDisconnected f a) b = setDisconnected f b.
Proof. reflexivity. Qed.

(** An updated entry is the entry with another flag. *)
Lemma updateFriend_frame results f :
  updateFriend results f = setDisconnected f (disconnected (updateFriend results f)).
Proof.
  unfold updateFriend.
  repeat match goal with |- context [if ?b then _ else _] => destruct b end;
    cbn [disconnected setDisconnected]; by rewrite ?setDisconnected_same.
Qed.

Lemma clearFlag_frame f : clearFlag f = setDisconnected f (disconnected (clearFlag f)).
Proof.
  unfold clearFlag. destruct (truthy (disconnected f));
    cbn [disconnected setDisconnected]; by rewrite ?setDisconnected_same.
Qed.

Lemma findResult_setDisconnected results f d :
  findResult results (setDisconnected f d) = findResult results f.
Proof. reflexivity. Qed.

Lemma updateFriend_idempotent results f :
  updateFriend results (updateFriend results f) = updateFriend results f.
Proof.
  unfold updateFriend. cbv zeta.
  destruct (findResult results f) as [r|] eqn:Hf; [|by rewrite Hf].
  destruct (notOk (status r) || notOk (avatarStatus r)) eqn:Hn.
  { by rewrite findResult_setDisconnected, Hf, Hn. }
  destruct (isOk (status r) && isOk (avatarStatus r) && truthy (disconnected f)) eqn:Ho.
  - rewrite findResult_setDisconnected, Hf, Hn.
    cbn [disconnected setDisconnected truthy]. by rewrite andb_false_r.
  - by rewrite Hf, Hn, Ho.
Qed.

Lemma clearFlag_idempotent f : clearFlag (clearFlag f) = clearFlag f.
Proof.
  unfold clearFlag. destruct (truthy (disconnected f)) eqn:E; [done|by rewrite E].
Qed.

Lemma clearFlag_not_truthy f : truthy (disconnected (clearFlag f)) = false.
Proof. unfold clearFlag. by destruct (truthy (disconnected f)) eqn:E. Qed.

Lemma existsb_zip {A B} (p : A * B -> bool) (l1 : list A) (l2 : list B) :
  existsb p (zip l1 l2) = true <->
  exists i a b, l1 !! i = Some a /\ l2 !! i = Some b /\ p (a, b) = true.
Proof.
  revert l2. induction l1 as [|x l1 IH]; intros [|y l2]; cbn [zip zip_with existsb].
  - split; [done|]. by intros (i & a & b & ? & _).
  - split; [done|]. by intros (i & a & b & ? & _).
  - split; [done|]. by intros (i & a & b & _ & ? & _).
  - rewrite orb_true_iff, IH. split.
    + intros [H|(i & a & b & ? & ? & ?)]; [by exists 0%nat, x, y|by exists (S i), a, b].
    + intros ([|i] & a & b & Ha & Hb & Hp); simplify_eq/=; [by left|right; eauto 6].
Qed.

Lemma hasChanges_iff (updated friends : list FriendLink) :
  hasChanges updated friends = true <->
  exists i f g, friends !! i = Some f /\ updated !! i = Some g /\
                disconnected g <> disconnected f.
Proof.
  unfold hasChanges. rewrite existsb_zip. split.
  - intros (i & g & f & Hg & Hf & Hp). exists i, f, g. repeat split; try done.
    cbn [fst snd] in Hp. apply negb_true_iff, bool_decide_eq_false in Hp. done.
  - intros (i & f & g & Hf & Hg & Hp). exists i, g, f. repeat split; try done.
    cbn [fst snd]. by apply negb_true_iff, bool_decide_eq_false.
Qed.

Lemma hasChanges_same (l : list FriendLink) : hasChanges l l = false.
Proof.
  apply not_true_is_false. rewrite hasChanges_iff.
  intros (i & f & g & Hf & Hg & Hp). congruence.
Qed.

Lemma recovered_iff (friends : list FriendLink) :
  (0 <? length (recoveredFriends friends))%nat = true <->
  exists i f, friends !! i = Some f /\ truthy (disconnected f) = true.
Proof.
  rewrite Nat.ltb_lt. unfold recoveredFriends. split.
  - intros H. destruct (List.filter _ friends) as [|f l] eqn:E; [cbn in H; lia|].
    assert (In f (List.filter (fun f => truthy (disconnected f)) friends)) as Hin
        by (rewrite E; by left).
    apply filter_In in Hin as [Hin Ht].
    apply list_elem_of_In, list_elem_of_lookup in Hin as [i Hi]. eauto.
  - intros (i & f & Hi & Ht).
    assert (In f (List.filter (fun f => truthy (disconnected f)) friends)) as Hin.
    { apply filter_In. split; [|done]. apply list_elem_of_In, list_elem_of_lookup. eauto. }
    destruct (List.filter _ friends); [done|cbn; lia].
Qed.

(** C9. The updated list has the length and the order of the input list:
    the entry at every index is the input entry of that index with,
    possibly, another [disconnected] field and nothing else changed; and
    [hasChanges] is true exactly when the [disconnected] field of some entry
    differs between the input and the output. The same holds in the branch
    without failures, where the file is written exactly when some entry
    loses its flag. *)
Theorem reconciliation_frame (friends : list FriendLink) (results : list LinkCheckResult) :
  let updated := updatedFriends friends results in
  let cleared := clearedFriends friends in
  length updated = length friends /\
  (forall i f g, friends !! i = Some f -> updated !! i = Some g ->
                 g = setDisconnected f (disconnected g)) /\
  (hasChanges updated friends = true <->
   exists i f g, friends !! i = Some f /\ updated !! i = Some g /\
                 disconnected g <> disconnected f) /\
  length cleared = length friends /\
  (forall i f g, friends !! i = Some f -> cleared !! i = Some g ->
                 g = setDisconnected f (disconnected g)) /\
  ((0 <? length (recoveredFriends friends))%nat = true <->
   exists i f g, friends !! i = Some f /\ cleared !! i = Some g /\
                 disconnected g <> disconnected f).
Proof.
  intros updated cleared. subst updated cleared.
  unfold updatedFriends, clearedFriends.
  split; [by rewrite length_map|].
  split.
  { intros i f g Hf Hg. rewrite list_lookup_fmap, Hf in Hg. simplify_eq/=.
    apply updateFriend_frame. }
  split; [apply hasChanges_iff|].
  split; [by rewrite length_map|].
  split.
  { intros i f g Hf Hg. rewrite list_lookup_fmap, Hf in Hg. simplify_eq/=.
    apply clearFlag_frame. }
  rewrite recovered_iff. split.
  - intros (i & f & Hf & Ht). exists i, f, (clearFlag f).
    rewrite list_lookup_fmap, Hf. repeat split; try done.
    intros E. pose proof (clearFlag_not_truthy f) as Hn. congruence.
  - intros (i & f & g & Hf & Hg & Hne). exists i, f. split; [done|].
    rewrite list_lookup_fmap, Hf in Hg. simplify_eq/=.
    unfold clearFlag in Hne. by destruct (truthy (disconnected f)).
Qed.

(** C10. Reconciling the updated entries again, with the same results,
    changes nothing: [hasChanges] is false on the second pass; and in the
    branch without failures no entry is left to recover on a second pass. *)
Theorem reconciliation_idempotent (friends : list FriendLink)
        (results : list LinkCheckResult) :
  let updated := updatedFriends friends results in
  hasChanges (updatedFriends updated results) updated = false /\
  recoveredFriends (clearedFriends friends) = [].
Proof.
  intros updated. subst updated. split.
  - replace (updatedFriends (updatedFriends friends results) results)
      with (updatedFriends friends results); [apply hasChanges_same|].
    unfold updatedFriends. rewrite <- list_fmap_compose.
    apply list_fmap_ext. intros i f _. cbn. by rewrite updateFriend_idempotent.
  - unfold recoveredFriends, clearedFriends.
    induction friends as [|f friends IH]; [done|].
    cbn [map List.filter]. by rewrite clearFlag_not_truthy.
Qed.

Lemma disconnectedInfo_reason r : info_reason (disconnectedInfo r) = reasonText r.
Proof.
  unfold disconnectedInfo, reasonText, issues. cbn [info_reason].
  destruct (notOk (status r)), (notOk (avatarStatus r)); cbn [app join andb];
    destruct (reason r) as [[|c text]|]; cbn [truthyText default from_option id];
    rewrite <- ?app_assoc, ?app_nil_r; cbn [app]; rewrite <- ?app_assoc; reflexivity.
Qed.

Lemma failed_nonempty results :
  (0 <? length (failed results))%nat = true <->
  exists r, In r results /\ isFailed r = true.
Proof.
  rewrite Nat.ltb_lt. unfold failed. split.
  - intros H. destruct (List.filter isFailed results) as [|r l] eqn:E; [cbn in H; lia|].
    exists r. apply filter_In. rewrite E. by left.
  - intros (r & Hr). apply filter_In in Hr.
    destruct (List.filter isFailed results); [done|cbn; lia].
Qed.

Lemma recovered_existsb (friends : list FriendLink) :
  (0 <? length (recoveredFriends friends))%nat
  = existsb (fun f => truthy (disconnected f)) friends.
Proof.
  unfold recoveredFriends. induction friends as [|f friends IH]; [done|].
  cbn [List.filter existsb]. by destruct (truthy (disconnected f)).
Qed.

(** ** The run *)

(** A data file that cannot be read or parsed ends [main] with an error
    before any request. *)
Lemma main_cases w :
  main w =
  match fs w ReadData with
  | Some e => (Throws e, w)
  | None =>
      match parseFriendsTs (dataFile w) with
      | inl e => (Throws e, w)
      | inr friends => checkAndUpdate friends w
      end
  end.
Proof.
  unfold main, mbind, M_bind, readDataFile.
  destruct (fs w ReadData); [done|].
  by destruct (parseFriendsTs (dataFile w)).
Qed.

(** The run when the file operations succeed. *)
Lemma main_spec w :
  diskOk w ->
  main w =
  match parseFriendsTs (dataFile w) with
  | inl e => (Throws e, w)
  | inr friends => checkAndUpdate friends w
  end.
Proof. intros Hok. by rewrite main_cases, Hok. Qed.

(** C4. The filter that builds the report and the update of the flags do
    not agree on what a failure is. In this run the page of the first entry
    has the status error, with an error text that holds the marker of the
    filter: the update flags the entry in the data file, as it flags the
    second one, but the report has a record for the second entry alone.
    When the first entry is the only one, the run reports nothing, flags
    nothing and ends with code 0. *)
Theorem marker_guard_hides_a_failure :
  let entries := [friendBadUrl; friendDead] in
  let w := withFiles worldMixed (generateFriendsTs entries) None in
  let alone := withFiles worldMixed (generateFriendsTs [friendBadUrl]) None in
  parseFriendsTs (dataFile w) = inr entries /\
  (exists r d,
     resultsOf entries w = [r; d] /\
     status r = Some ERROR /\ avatarStatus r = Some OK /\
     reason r = Some (lit "Failed to parse URL from " ++ marker) /\
     status d = Some ERROR /\ avatarStatus d = Some ERROR) /\
  outputFile (main w).2
  = Some [{| info_name := name friendDead; info_url := url friendDead;
             info_reason := lit "URL: error (fetch failed), Avatar: error" |}] /\
  dataFile (main w).2
  = generateFriendsTs [setDisconnected friendBadUrl (Some true);
                       setDisconnected friendDead (Some true)] /\
  exitCode w = 1 /\
  (exists r, resultsOf [friendBadUrl] alone = [r] /\ status r = Some ERROR) /\
  exitCode alone = 0 /\
  outputFile (main alone).2 = None /\
  dataFile (main alone).2 = dataFile alone.
Proof.
  cbv zeta. split; [by vm_compute|].
  split; [eexists _, _; split; [vm_compute; reflexivity|by vm_compute]|].
  split; [by vm_compute|]. split; [by vm_compute|]. split; [by vm_compute|].
  split; [eexists; split; [vm_compute; reflexivity|by vm_compute]|].
  split; [by vm_compute|]. split; by vm_compute.
Qed.

(** C5. The exit code does not follow the failures. The page of the only
    entry of the first run has the status error, yet nothing is reported
    and the process ends with code 0: the filter leaves out a failure whose
    error text holds its marker. In the second run the entry fails in the
    same way with another error text: it is reported and the process ends
    with code 1. In the third run the entry fails as in the second and the
    write of the report rejects: the list of failures is not empty and the
    process ends with code 0. *)
Theorem failing_entry_exits_zero :
  let marked := withFiles worldBadUrl (generateFriendsTs [friendBadUrl]) None in
  let plain := withFiles worldDown (generateFriendsTs [friendDead]) None in
  let readOnly := withFailing WriteReport accessDenied plain in
  (exists r, resultsOf [friendBadUrl] marked = [r] /\ status r = Some ERROR /\
             disconnectedList (failed [r]) = []) /\
  exitCode marked = 0 /\ outputFile (main marked).2 = None /\
  (exists r, resultsOf [friendDead] plain = [r] /\ status r = Some ERROR /\
             outputFile (main plain).2 = Some (disconnectedList (failed [r])) /\
             length (disconnectedList (failed [r])) = 1%nat) /\
  exitCode plain = 1 /\
  (exists r, resultsOf [friendDead] readOnly = [r] /\
             length (disconnectedList (failed [r])) = 1%nat) /\
  (main readOnly).1 = Throws accessDenied /\
  exitCode readOnly = 0 /\ outputFile (main readOnly).2 = None.
Proof.
  cbv zeta.
  split; [eexists; split; [vm_compute; reflexivity|by vm_compute]|].
  split; [by vm_compute|]. split; [by vm_compute|].
  split; [eexists; split; [vm_compute; reflexivity|by vm_compute]|].
  split; [by vm_compute|].
  split; [eexists; split; [vm_compute; reflexivity|by vm_compute]|].
  split; [by vm_compute|]. split; by vm_compute.
Qed.

(** ** Flagged entries *)

Lemma findResult_first friends results i f :
  Forall2 resultFor friends results ->
  friends !! i = Some f ->
  (forall j g, (j < i)%nat -> friends !! j = Some g -> name g <> name f) ->
  exists r, findResult results f = Some r /\ results !! i = Some r /\ resultFor f r.
Proof.
  intros HF. revert i. induction HF as [|g r0 friends results Hr HF IH]; intros i Hi Hfirst.
  - done.
  - destruct i as [|i]; unfold findResult; cbn [find].
    + simplify_eq/=. exists r0. destruct Hr as [Hn ?].
      rewrite Hn, jsstring_eqb_refl. done.
    + assert (name g <> name f) as Hne by (apply (Hfirst 0%nat); [lia|done]).
      destruct Hr as [Hn _]. rewrite Hn, jsstring_eqb_neq by done.
      apply IH; [done|]. intros j g' Hj Hg'. apply (Hfirst (S j)); [lia|done].
Qed.

Lemma NoDup_names_first (friends : list FriendLink) i f :
  NoDup (map name friends) ->
  friends !! i = Some f ->
  forall j g, (j < i)%nat -> friends !! j = Some g -> name g <> name f.
Proof.
  intros Hnd Hi j g Hj Hg E.
  assert (j = i); [|lia].
  eapply NoDup_lookup; [apply Hnd| |].
  - by rewrite list_lookup_fmap, Hg.
  - by rewrite list_lookup_fmap, Hi, E.
Qed.

(** The result that [find] gives an entry is the result of the first entry
    that bears its name. *)
Lemma findResult_lookup results i r (f : FriendLink) :
  results !! i = Some r -> res_name r = name f ->
  exists j r', (j <= i)%nat /\ results !! j = Some r' /\ res_name r' = name f /\
               findResult results f = Some r'.
Proof.
  revert i. induction results as [|x results IH]; intros i Hi Hn; [done|].
  unfold findResult. cbn [find].
  destruct (jsstring_eqb (res_name x) (name f)) eqn:E.
  - exists 0%nat, x. apply jsstring_eqb_eq in E. repeat split; [lia|done..].
  - destruct i as [|i]; simplify_eq/=.
    { by rewrite Hn, jsstring_eqb_refl in E. }
    destruct (IH i Hi Hn) as (j & r' & Hj & Hr' & Hn' & Hfind).
    exists (S j), r'. repeat split; [lia|done..].
Qed.

(** With two entries of one name, which the specification sets aside, a
    flagged entry is matched with the failed result of its namesake and
    keeps its flag in the file that the run writes. *)
Example flag_survives_behind_a_namesake :
  disconnected (friendOf "X" "https://x.example" (Some true)) = Some true /\
  dataFile (checkAndUpdate namesakes worldDown).2
  = generateFriendsTs
      [friendOf "X" "https://dead.example" (Some true);
       friendOf "X" "https://x.example" (Some true)].
Proof. by vm_compute. Qed.

(** When names are pairwise distinct, no result before that of an entry
    bears its name. *)
Lemma distinct_names_no_namesake (friends : list FriendLink) (w : World)
      (i : nat) (f : FriendLink) :
  NoDup (map name friends) -> friends !! i = Some f ->
  forall j r, (j < i)%nat -> resultsOf friends w !! j = Some r ->
              res_name r = name f ->
              notOk (status r) || notOk (avatarStatus r) = false.
Proof.
  intros Hnd Hi j r Hj Hr Hn. exfalso.
  destruct (checkAll_spec friends w) as (results & w1 & Hc & HF & _).
  unfold resultsOf in Hr. rewrite Hc in Hr. cbn [fst] in Hr.
  destruct (Forall2_lookup_r _ _ _ _ _ HF Hr) as (g & Hg & Hng & _).
  apply (NoDup_names_first friends i f Hnd Hi j g Hj Hg). congruence.
Qed.

(** C3. An entry that enters the run flagged is not probed, whatever the
    network answers, and it has lost its flag in the list of entries that
    the run builds, which has the entries in their order; the run writes
    this list to the data file when its file operations succeed. This
    holds whenever no earlier entry of the same name was found unreachable
    in the run: in particular when names are pairwise distinct, as the
    specification assumes ([distinct_names_no_namesake]), and also behind
    namesakes that are reachable or flagged. *)
Theorem flagged_entry_is_recovered (friends : list FriendLink) (w : World)
        (i : nat) (f : FriendLink) :
  friends !! i = Some f ->
  disconnected f = Some true ->
  (forall j r, (j < i)%nat -> resultsOf friends w !! j = Some r ->
               res_name r = name f ->
               notOk (status r) || notOk (avatarStatus r) = false) ->
  (forall w0, exists r, checkLink f w0 = (Returns r, w0) /\
                        status r = Some OK /\ avatarStatus r = Some OK) /\
  let results := resultsOf friends w in
  let updated := if (0 <? length (failed results))%nat
                 then updatedFriends friends results
                 else clearedFriends friends in
  length updated = length friends /\
  updated !! i = Some (setDisconnected f None) /\
  (diskOk w -> dataFile (checkAndUpdate friends w).2 = generateFriendsTs updated).
Proof.
  intros Hi Hd Hbefore. split.
  { intros w0. destruct (checkLink_flagged f w0 Hd) as (r & ? & ? & ? & _). eauto. }
  destruct (checkAll_spec friends w) as (results & w1 & Hc & HF & _).
  assert (resultsOf friends w = results) as Hres by (unfold resultsOf; by rewrite Hc).
  rewrite Hres in *. cbv zeta.
  assert (truthy (disconnected f) = true) as Ht by (by rewrite Hd).
  destruct (Forall2_lookup_l _ _ _ _ _ HF Hi) as (own & Hown & Hn & _ & Hsyn).
  destruct (Hsyn Ht) as (Hs & Ha & _).
  destruct (findResult_lookup results i own f Hown Hn)
    as (j & r & Hj & Hr & Hnr & Hfind).
  assert (notOk (status r) || notOk (avatarStatus r) = false) as Hgood.
  { destruct (decide (j = i)) as [->|Hne].
    - assert (r = own) as -> by congruence. by rewrite Hs, Ha.
    - apply (Hbefore j); [lia|done..]. }
  apply orb_false_elim in Hgood as [Hgs Hga].
  assert (updateFriend results f = setDisconnected f None) as Hu.
  { unfold updateFriend. rewrite Hfind. cbv zeta. unfold isOk.
    by rewrite Hgs, Hga, Ht. }
  assert (hasChanges (updatedFriends friends results) friends = true) as Hch.
  { apply hasChanges_iff. exists i, f, (setDisconnected f None).
    unfold updatedFriends. rewrite list_lookup_fmap, Hi. cbn. rewrite Hu.
    repeat split; try done. cbn. by rewrite Hd. }
  assert ((0 <? length (recoveredFriends friends))%nat = true) as Hrec.
  { apply recovered_iff. eauto. }
  destruct (0 <? length (failed results))%nat eqn:Hfailed.
  - split; [unfold updatedFriends; by rewrite length_map|].
    split; [unfold updatedFriends; by rewrite list_lookup_fmap, Hi, <- Hu|].
    intros Hok. by rewrite (checkAndUpdate_spec _ _ _ _ Hok Hc), Hfailed, Hch.
  - split; [unfold clearedFriends; by rewrite length_map|].
    split.
    + unfold clearedFriends, clearFlag. rewrite list_lookup_fmap, Hi. cbn.
      by rewrite Ht.
    + intros Hok. by rewrite (checkAndUpdate_spec _ _ _ _ Hok Hc), Hfailed, Hrec.
Qed.

Lemma flagged_entry_is_recovered_witness :
  (forall w0, exists r,
      checkLink (friendOf "X" "https://x.example" (Some true)) w0 = (Returns r, w0) /\
      status r = Some OK /\ avatarStatus r = Some OK) /\
  let friends := [friendOf "A" "https://dead.example" None;
                  friendOf "X" "https://good.example" None;
                  friendOf "X" "https://x.example" (Some true)] in
  let results := resultsOf friends worldMixed in
  let updated := if (0 <? length (failed results))%nat
                 then updatedFriends friends results
                 else clearedFriends friends in
  length updated = length friends /\
  updated !! 2%nat
  = Some (setDisconnected (friendOf "X" "https://x.example" (Some true)) None) /\
  (diskOk worldMixed ->
   dataFile (checkAndUpdate friends worldMixed).2 = generateFriendsTs updated).
Proof.
  apply (flagged_entry_is_recovered
           [friendOf "A" "https://dead.example" None;
            friendOf "X" "https://good.example" None;
            friendOf "X" "https://x.example" (Some true)]
           worldMixed 2 (friendOf "X" "https://x.example" (Some true))).
  - reflexivity.
  - reflexivity.
  - intros [|[|j]] r Hj Hr Hn; [| |lia].
    + vm_compute in Hr. injection Hr as <-. vm_compute in Hn. discriminate.
    + vm_compute in Hr. injection Hr as <-. reflexivity.
Defined.

(** ** The matcher *)

Lemma takeWhile_dropWhile p s : takeWhile p s ++ dropWhile p s = s.
Proof. induction s as [|c s IH]; [done|]. cbn. destruct (p c); [by rewrite <- IH at 3|done]. Qed.

Lemma take_consumed (v s : jsstring) : take (length (v ++ s) - length s) (v ++ s) = v.
Proof.
  rewrite length_app. replace (length v + length s - length s)%nat with (length v) by lia.
  by rewrite take_app_length.
Qed.

Lemma take_while_consumed p s :
  take (length s - length (dropWhile p s)) s = takeWhile p s.
Proof. rewrite <- (takeWhile_dropWhile p s) at 1 3. apply take_consumed. Qed.

Lemma takeWhile_app_stop p v c s :
  forallb p v = true -> p c = false -> takeWhile p (v ++ c :: s) = v.
Proof.
  intros Hv Hc. induction v as [|x v IH]; cbn in *; [by rewrite Hc|].
  apply andb_prop in Hv as [-> Hv]. by rewrite IH.
Qed.

Lemma dropWhile_app_stop p v c s :
  forallb p v = true -> p c = false -> dropWhile p (v ++ c :: s) = c :: s.
Proof.
  intros Hv Hc. induction v as [|x v IH]; cbn in *; [by rewrite Hc|].
  apply andb_prop in Hv as [-> Hv]. by rewrite IH.
Qed.

Lemma stripPrefix_app l s : stripPrefix l (l ++ s) = Some s.
Proof. induction l as [|c l IH]; [done|]. cbn. by rewrite N.eqb_refl. Qed.

Lemma stripPrefix_Some l s s' : stripPrefix l s = Some s' -> s = l ++ s'.
Proof.
  revert s. induction l as [|c l IH]; intros [|d s]; cbn; try done.
  - by intros [= ->].
  - by intros [= ->].
  - destruct (c =? d)%N eqn:E; [|done]. apply N.eqb_eq in E as ->.
    intros H. by rewrite (IH _ H).
Qed.

Lemma stripPrefix_reject p d l c t :
  p d = false -> p c = true -> stripPrefix (d :: l) (c :: t) = None.
Proof.
  intros Hd Hc. cbn. destruct (d =? c)%N eqn:E; [|done].
  apply N.eqb_eq in E. congruence.
Qed.

Lemma orElse_None {A} (x : option A) :
  match x with Some r => Some r | None => None end = x.
Proof. by destruct x. Qed.

Lemma starGreedy_exact {R} p (k : Cont R) s caps :
  rejects p k -> starGreedy p k s caps = k (dropWhile p s) caps.
Proof.
  intros Hk. induction s as [|c s IH]; [done|]. cbn.
  destruct (p c) eqn:E; [|done]. rewrite IH.
  destruct (k (dropWhile p s) caps); [done|]. by apply Hk.
Qed.

Lemma rejects_Chars {R} p c l (k : Cont R) :
  p c = false -> rejects p (rmatch (Chars (c :: l)) k).
Proof.
  intros Hc x s caps Hx. cbn. destruct (c =? x)%N eqn:E; [|done].
  apply N.eqb_eq in E as ->. congruence.
Qed.

Lemma rmatch_Chars {R} l r (k : Cont R) s caps :
  rmatch (Chars l ⋅ r) k (l ++ s) caps = rmatch r k s caps.
Proof. cbn [rmatch]. by rewrite stripPrefix_app. Qed.

Lemma rmatch_assoc {R} a b c (k : Cont R) s caps :
  rmatch ((a ⋅ b) ⋅ c) k s caps = rmatch (a ⋅ b ⋅ c) k s caps.
Proof. reflexivity. Qed.

Lemma rmatch_Chars_end {R} l (k : Cont R) s caps :
  rmatch (Chars l) k (l ++ s) caps = k s caps.
Proof. cbn [rmatch]. by rewrite stripPrefix_app. Qed.

(** White space before literal characters that do not start with white
    space. *)
Lemma rmatch_ws_Chars {R} w c l r (k : Cont R) s caps :
  forallb isSpace w = true -> isSpace c = false ->
  rmatch (ws ⋅ Chars (c :: l) ⋅ r) k (w ++ (c :: l) ++ s) caps = rmatch r k s caps.
Proof.
  intros Hw Hc. unfold ws. cbn [rmatch inClass].
  rewrite starGreedy_exact.
  - cbn [app]. rewrite dropWhile_app_stop by done.
    change (c :: l ++ s) with ((c :: l) ++ s). by rewrite stripPrefix_app.
  - apply (rejects_Chars isSpace c l (fun s' caps' => rmatch r k s' caps')). done.
Qed.

Lemma rmatch_ws_Chars_end {R} w c l (k : Cont R) s caps :
  forallb isSpace w = true -> isSpace c = false ->
  rmatch (ws ⋅ Chars (c :: l)) k (w ++ (c :: l) ++ s) caps = k s caps.
Proof.
  intros Hw Hc. unfold ws. cbn [rmatch inClass].
  rewrite starGreedy_exact.
  - cbn [app]. rewrite dropWhile_app_stop by done.
    change (c :: l ++ s) with ((c :: l) ++ s). by rewrite stripPrefix_app.
  - by apply (rejects_Chars isSpace c l k).
Qed.

Lemma notQuote_eqb c : inClass NotQuote c = true -> (dquote =? c)%N = false.
Proof. cbn [inClass]. intros H%negb_true_iff. by rewrite N.eqb_sym. Qed.

(** White space, then a quoted value of one character or more. *)
Lemma rmatch_ws_quoted_plus {R} w i v r (k : Cont R) s caps :
  forallb isSpace w = true -> forallb notQuote v = true -> v <> [] ->
  rmatch (ws ⋅ quoted i (Plus NotQuote) ⋅ r) k (w ++ dquote :: v ++ dquote :: s) caps
  = rmatch r k s (setCapture i v caps).
Proof.
  intros Hw Hv Hne. unfold ws, quoted. cbn [rmatch inClass].
  rewrite starGreedy_exact.
  2: { apply (rejects_Chars isSpace dquote []). by vm_compute. }
  rewrite dropWhile_app_stop by (done || by vm_compute).
  cbn [stripPrefix]. rewrite N.eqb_refl.
  destruct v as [|x v]; [done|]. cbn [app forallb] in *.
  apply andb_prop in Hv as [Hx Hv]. fold (notQuote x). rewrite Hx.
  rewrite starGreedy_exact.
  2: { intros c t caps' Hc. by rewrite (notQuote_eqb c Hc). }
  rewrite dropWhile_app_stop by (done || by vm_compute).
  cbn [stripPrefix]. rewrite N.eqb_refl.
  change (x :: v ++ dquote :: s) with ((x :: v) ++ dquote :: s).
  by rewrite take_consumed.
Qed.

(** White space, then a quoted value that may be empty. *)
Lemma rmatch_ws_quoted_star {R} w i v r (k : Cont R) s caps :
  forallb isSpace w = true -> forallb notQuote v = true ->
  rmatch (ws ⋅ quoted i (Star NotQuote) ⋅ r) k (w ++ dquote :: v ++ dquote :: s) caps
  = rmatch r k s (setCapture i v caps).
Proof.
  intros Hw Hv. unfold ws, quoted. cbn [rmatch inClass].
  rewrite starGreedy_exact.
  2: { apply (rejects_Chars isSpace dquote []). by vm_compute. }
  rewrite dropWhile_app_stop by (done || by vm_compute).
  cbn [stripPrefix]. rewrite N.eqb_refl.
  rewrite starGreedy_exact.
  2: { intros c t caps' Hc. by rewrite (notQuote_eqb c Hc). }
  rewrite dropWhile_app_stop by (done || by vm_compute).
  cbn [stripPrefix]. rewrite N.eqb_refl.
  by rewrite take_consumed.
Qed.

(** White space, then the word true. *)
Lemma rmatch_ws_true {R} w i r (k : Cont R) s caps :
  forallb isSpace w = true ->
  rmatch (ws ⋅ trueOrFalse i ⋅ r) k (w ++ lit "true" ++ s) caps
  = rmatch r k s (setCapture i (lit "true") caps).
Proof.
  intros Hw. unfold ws, trueOrFalse. cbn [rmatch inClass].
  rewrite starGreedy_exact.
  2: { intros c t caps' Hc. cbn [inClass] in Hc.
       change (lit "true") with (116%N :: lit "rue").
       change (lit "false") with (102%N :: lit "alse").
       by rewrite !(stripPrefix_reject isSpace _ _ c t) by done. }
  change (lit "true" ++ s) with (116%N :: lit "rue" ++ s).
  rewrite dropWhile_app_stop by (done || by vm_compute).
  change (116%N :: lit "rue" ++ s) with (lit "true" ++ s).
  rewrite stripPrefix_app, take_consumed.
  destruct (rmatch r k s _); [done|]. by vm_compute.
Qed.

Lemma stripPrefix_length l s s' : stripPrefix l s = Some s' -> (length s' <= length s)%nat.
Proof. intros ->%stripPrefix_Some. rewrite length_app. lia. Qed.

Lemma starGreedy_ext {R} p (k1 k2 : Cont R) s caps :
  (forall s' caps', (length s' <= length s)%nat -> k1 s' caps' = k2 s' caps') ->
  starGreedy p k1 s caps = starGreedy p k2 s caps.
Proof.
  induction s as [|c s IH]; intros H; cbn [starGreedy].
  - by apply H.
  - rewrite IH by (intros; apply H; cbn; lia). by rewrite H.
Qed.

Lemma starLazy_ext {R} p (k1 k2 : Cont R) s caps :
  (forall s' caps', (length s' <= length s)%nat -> k1 s' caps' = k2 s' caps') ->
  starLazy p k1 s caps = starLazy p k2 s caps.
Proof.
  induction s as [|c s IH]; intros H; cbn [starLazy].
  - by rewrite H.
  - rewrite IH by (intros; apply H; cbn; lia). by rewrite H.
Qed.

(** A matcher calls its continuation on inputs that are not longer than its
    own input. *)
Lemma rmatch_ext {R} r (k1 k2 : Cont R) s caps :
  (forall s' caps', (length s' <= length s)%nat -> k1 s' caps' = k2 s' caps') ->
  rmatch r k1 s caps = rmatch r k2 s caps.
Proof.
  revert k1 k2 s caps.
  induction r as [l|cl|cl|cl|r1 IH1 r2 IH2|r1 IH1 r2 IH2|r0 IH|i r0 IH];
    intros k1 k2 s caps H; cbn [rmatch].
  - destruct (stripPrefix l s) as [s'|] eqn:E; [|done].
    apply H. by eapply stripPrefix_length.
  - by apply starGreedy_ext.
  - by apply starLazy_ext.
  - destruct s as [|c s]; [done|]. destruct (inClass cl c); [|done].
    apply starGreedy_ext. intros. apply H. cbn. lia.
  - apply IH1. intros s' caps' Hs'. apply IH2. intros. apply H. lia.
  - rewrite (IH1 k1 k2), (IH2 k1 k2) by done. done.
  - rewrite (IH _ (fun s' caps' => if (length s' =? length s)%nat then None
                                   else k2 s' caps')).
    + by rewrite H.
    + intros s' caps' Hs'. destruct (length s' =? length s)%nat; [done|by apply H].
  - apply IH. intros s' caps' Hs'. by apply H.
Qed.

(** An optional group that starts with a literal character consumes input
    whenever it matches: the check for an empty iteration never fires. *)
Lemma rmatch_Opt_Chars {R} c l r1 r (k : Cont R) s caps :
  rmatch (Opt (Chars (c :: l) ⋅ r1) ⋅ r) k s caps =
  match rmatch (Chars (c :: l) ⋅ r1 ⋅ r) k s caps with
  | Some x => Some x
  | None => rmatch r k s caps
  end.
Proof.
  cbn [rmatch].
  destruct (stripPrefix (c :: l) s) as [s1|] eqn:E; [|done].
  apply stripPrefix_Some in E as ->.
  erewrite (rmatch_ext r1); [reflexivity|].
  intros s' caps' Hs'. cbn beta.
  replace (length s' =? length ((c :: l) ++ s1))%nat with false; [done|].
  symmetry. apply Nat.eqb_neq. rewrite length_app. cbn. lia.
Qed.

(** ** The text of an entry and the pattern of an object *)

Lemma rmatch_ws_lit {R} w l r (k : Cont R) s caps :
  forallb isSpace w = true -> startsPlain l = true ->
  rmatch (ws ⋅ Chars l ⋅ r) k (w ++ l ++ s) caps = rmatch r k s caps.
Proof.
  intros Hw Hl. destruct l as [|c l]; [done|].
  apply rmatch_ws_Chars; [done|]. by apply negb_true_iff.
Qed.

Lemma rmatch_ws_lit_end {R} w l (k : Cont R) s caps :
  forallb isSpace w = true -> startsPlain l = true ->
  rmatch (ws ⋅ Chars l) k (w ++ l ++ s) caps = k s caps.
Proof.
  intros Hw Hl. destruct l as [|c l]; [done|].
  apply rmatch_ws_Chars_end; [done|]. by apply negb_true_iff.
Qed.

Lemma entryText_objectText f rest :
  entryText f ++ rest = lit "    " ++ objectText f rest.
Proof.
  unfold entryText, objectText, fieldText, dateText, flagText, closingText, line, indent.
  destruct (truthyText (addDate f)), (truthy (recommended f)),
    (truthy (disconnected f)); rewrite <- ?app_assoc; reflexivity.
Qed.

Lemma fail_lit {R} l r (k : Cont R) s caps :
  stripPrefix l s = None -> rmatch (Chars l ⋅ r) k s caps = None.
Proof. intros H. cbn [rmatch]. by rewrite H. Qed.

Lemma fail_ws_lit {R} w l r (k : Cont R) s caps :
  forallb isSpace w = true -> startsPlain l = true -> startsPlain s = true ->
  stripPrefix l s = None ->
  rmatch (ws ⋅ Chars l ⋅ r) k (w ++ s) caps = None.
Proof.
  intros Hw Hl Hs Hn. destruct l as [|c l]; [done|]. destruct s as [|d s]; [done|].
  unfold ws. cbn [rmatch inClass]. rewrite starGreedy_exact.
  - rewrite dropWhile_app_stop; [by rewrite Hn|done|by apply negb_true_iff].
  - apply (rejects_Chars isSpace c l (fun s' caps' => rmatch r k s' caps')).
    by apply negb_true_iff.
Qed.

Lemma rmatch_Opt_lit {R} l r1 r (k : Cont R) s caps :
  l <> [] ->
  rmatch (Opt (Chars l ⋅ r1) ⋅ r) k s caps =
  match rmatch (Chars l ⋅ r1 ⋅ r) k s caps with
  | Some x => Some x
  | None => rmatch r k s caps
  end.
Proof. destruct l as [|c l]; [done|]. intros _. apply rmatch_Opt_Chars. Qed.

Lemma rmatch_Opt_field {R} l key body r (k : Cont R) s caps :
  l <> [] ->
  rmatch (Opt (Chars l ⋅ ws ⋅ Chars key ⋅ ws ⋅ body) ⋅ r) k s caps =
  match rmatch (Chars l ⋅ ws ⋅ Chars key ⋅ ws ⋅ body ⋅ r) k s caps with
  | Some x => Some x
  | None => rmatch r k s caps
  end.
Proof. intros Hl. by rewrite rmatch_Opt_lit. Qed.

Lemma closing_match rest caps :
  rmatch (ws ⋅ Chars (lit "}")) accept (closingText rest) caps = Some (caps, rest).
Proof. unfold closingText. by rewrite rmatch_ws_lit_end. Qed.

Ltac side := first [done | by vm_compute | reflexivity].

Ltac present_flag :=
  rewrite rmatch_Opt_field by side;
  rewrite rmatch_Chars, rmatch_ws_lit, rmatch_ws_true by side.

Ltac present_date :=
  rewrite rmatch_Opt_field by side;
  rewrite rmatch_Chars, rmatch_ws_lit, rmatch_ws_quoted_star by side.

Ltac absent_comma :=
  rewrite rmatch_Opt_field by side;
  rewrite rmatch_Chars, fail_ws_lit by side.

Ltac absent_newline :=
  rewrite rmatch_Opt_field by side;
  rewrite fail_lit by side.

(** The three optional fields and the closing brace. *)
Lemma optional_match d r7 r6 rest caps :
  match d with
  | Some v => forallb notQuote v = true
  | None => True
  end ->
  rmatch (Opt (Chars (lit ",") ⋅ ws ⋅ Chars (lit "addDate:") ⋅ ws ⋅
               quoted 5 (Star NotQuote)) ⋅
          Opt (Chars (lit ",") ⋅ ws ⋅ Chars (lit "recommended:") ⋅ ws ⋅
               trueOrFalse 6) ⋅
          Opt (Chars (lit ",") ⋅ ws ⋅ Chars (lit "disconnected:") ⋅ ws ⋅
               trueOrFalse 7) ⋅
          ws ⋅ Chars (lit "}"))
         accept
         (dateText d
            (flagText "recommended:" r6
               (flagText "disconnected:" r7 (closingText rest))))
         caps
  = Some (setFlag 7 r7 (setFlag 6 r6 (setDate d caps)), rest).
Proof.
  intros Hd. unfold dateText, flagText, setDate, setFlag.
  destruct (truthyText d) eqn:Ed.
  - destruct d as [[|x v]|]; try done. cbn [default from_option id].
    present_date.
    destruct (truthy r6), (truthy r7);
      repeat first [present_flag | absent_comma | absent_newline];
      by rewrite closing_match.
  - destruct (truthy r6), (truthy r7);
      repeat first [present_flag | absent_comma | absent_newline];
      by rewrite closing_match.
Qed.

Lemma plainText_notQuote v : plainText v = true -> forallb notQuote v = true.
Proof. unfold plainText. by intros [? _]%andb_prop. Qed.

Lemma present_nonempty v : present v = true -> v <> [].
Proof. by destruct v. Qed.

Ltac value_side :=
  first [side | by apply plainText_notQuote | by apply present_nonempty].

(** The pattern matches the text of a well-formed entry, all of it, and the
    object built from the groups is the entry. *)
Lemma object_match f rest :
  wellFormed f = true ->
  exists objMatch,
    matchAt objectRegex (objectText f rest) = Some (objMatch, rest) /\
    friendOfMatch objMatch = f.
Proof.
  unfold wellFormed. intros H.
  repeat (apply andb_prop in H as [H ?]).
  unfold matchAt, objectRegex, objectText, fieldText.
  rewrite rmatch_Chars.
  rewrite rmatch_ws_lit by side.
  rewrite rmatch_ws_quoted_plus by value_side.
  rewrite rmatch_Chars, rmatch_ws_lit by side.
  rewrite rmatch_ws_quoted_plus by value_side.
  rewrite rmatch_Chars, rmatch_ws_lit by side.
  rewrite rmatch_ws_quoted_plus by value_side.
  rewrite rmatch_Chars, rmatch_ws_lit by side.
  rewrite rmatch_ws_quoted_plus by value_side.
  rewrite optional_match.
  2: { destruct (addDate f) as [d|]; [|done].
       apply plainText_notQuote. by destruct (present d). }
  eexists. split; [reflexivity|].
  destruct f as [n d u a date r6 r7]. cbn [name description url avatar addDate
    recommended disconnected] in *.
  unfold friendOfMatch, setFlag, setDate.
  destruct date as [[|x date]|], r6 as [[|]|], r7 as [[|]|]; try done.
Qed.

Lemma search_skip pre s :
  forallb notBrace pre = true ->
  search objectRegex (pre ++ s) = search objectRegex s.
Proof.
  induction pre as [|c pre IH]; [done|]. cbn [forallb app].
  intros [Hc Hpre]%andb_prop. rewrite <- IH by done.
  cbn [search]. replace (matchAt objectRegex (c :: pre ++ s)) with
    (@None (Captures * jsstring)); [done|].
  unfold matchAt, objectRegex. cbn [rmatch]. change (lit "{") with [123%N].
  cbn [stripPrefix]. unfold notBrace in Hc. apply negb_true_iff in Hc.
  by rewrite N.eqb_sym, Hc.
Qed.

Lemma search_at r s x : matchAt r s = Some x -> search r s = Some x.
Proof. intros H. destruct s; cbn [search]; by rewrite H. Qed.

Lemma entryText_length f : (1 <= length (entryText f))%nat.
Proof. unfold entryText, line. rewrite length_app. cbn. lia. Qed.

Lemma execAll_end fuel pre :
  forallb notBrace pre = true -> (0 < fuel)%nat ->
  execAll fuel (pre ++ line ",") = Some [].
Proof.
  intros Hpre Hfuel. destruct fuel as [|fuel]; [lia|]. cbn [execAll].
  rewrite search_skip by done. by vm_compute.
Qed.

Lemma execAll_entry fuel pre f rest :
  forallb notBrace pre = true -> wellFormed f = true ->
  execAll (S fuel) (pre ++ entryText f ++ rest) = cons f <$> execAll fuel rest.
Proof.
  intros Hpre Hf. cbn [execAll].
  rewrite entryText_objectText, app_assoc, search_skip.
  2: { rewrite forallb_app, Hpre. by vm_compute. }
  destruct (object_match f rest Hf) as (objMatch & Hm & Hfr).
  rewrite (search_at _ _ _ Hm). by rewrite Hfr.
Qed.

(** The loop of the parser reads back the entries that the generator
    wrote. *)
Lemma execAll_entries friends pre fuel :
  forallb wellFormed friends = true ->
  forallb notBrace pre = true ->
  (length friends < fuel)%nat ->
  execAll fuel (pre ++ join separator (map entryText friends) ++ line ",")
  = Some friends.
Proof.
  revert pre fuel. induction friends as [|f friends IH]; intros pre fuel Hwf Hpre Hfuel.
  - cbn [map join app]. apply execAll_end; [done|lia].
  - cbn [forallb] in Hwf. apply andb_prop in Hwf as [Hf Hwf].
    destruct fuel as [|fuel]; [cbn in Hfuel; lia|]. cbn [length] in Hfuel.
    destruct friends as [|g friends].
    + cbn [map join]. rewrite execAll_entry by done.
      assert (execAll fuel (line ",") = Some []) as ->; [|done].
      apply (execAll_end fuel []); [done|lia].
    + change (join separator (map entryText (f :: g :: friends)))
        with (entryText f ++ separator ++ join separator (map entryText (g :: friends))).
      rewrite <- !app_assoc. rewrite execAll_entry by done.
      rewrite (IH separator) by (done || (cbn [length] in *; lia)). done.
Qed.

(** ** The array in the file *)

Lemma includes_closing_cons c s :
  includes (c :: s) closing =
  ((93 =? c)%N && match s with d :: _ => (59 =? d)%N | [] => false end)
  || includes s closing.
Proof.
  cbn [includes]. f_equal. change closing with [93%N; 59%N]. cbn [startsWith].
  destruct s as [|d s]; [done|]. by rewrite andb_true_r.
Qed.

Lemma noClose_skip pre s :
  forallb notBracket pre = true -> includes s closing = false ->
  includes (pre ++ s) closing = false.
Proof.
  intros Hpre Hs. induction pre as [|c pre IH]; [done|].
  cbn [forallb] in Hpre. apply andb_prop in Hpre as [Hc Hpre].
  cbn [app]. rewrite includes_closing_cons, IH by done.
  unfold notBracket in Hc. apply negb_true_iff in Hc.
  by rewrite N.eqb_sym, Hc.
Qed.

Lemma noClose_field v c s :
  includes v closing = false -> includes (c :: s) closing = false ->
  (59 =? c)%N = false ->
  includes (v ++ c :: s) closing = false.
Proof.
  intros Hv Hs Hc. induction v as [|x v IH]; [done|].
  rewrite includes_closing_cons in Hv. apply orb_false_elim in Hv as [Hx Hv].
  cbn [app]. rewrite includes_closing_cons, IH by done.
  destruct v as [|d v]; cbn [app]; [by rewrite Hc, andb_false_r|by rewrite Hx].
Qed.

Lemma noClose_infix a v b :
  includes (a ++ v ++ b) closing = false -> includes v closing = false.
Proof.
  intros H. induction a as [|c a IH].
  - cbn [app] in H. induction v as [|x v IHv]; [done|].
    cbn [app] in H. rewrite includes_closing_cons in *.
    apply orb_false_elim in H as [Hx H]. rewrite (IHv H), orb_false_r.
    destruct v as [|d v]; [by rewrite andb_false_r|done].
  - cbn [app] in H. rewrite includes_closing_cons in H.
    apply orb_false_elim in H as [_ H]. by apply IH.
Qed.

Lemma starLazy_now {R} p (k : Cont R) s caps x :
  k s caps = Some x -> starLazy p k s caps = Some x.
Proof. intros H. destruct s; cbn [starLazy]; by rewrite H. Qed.

Lemma starLazy_later {R} p (k : Cont R) c s caps :
  k (c :: s) caps = None -> p c = true ->
  starLazy p k (c :: s) caps = starLazy p k s caps.
Proof. intros H Hc. cbn [starLazy]. by rewrite H, Hc. Qed.

(** The lazy group stops at the first end of array. *)
Lemma lazy_match_from p a b caps :
  includes a closing = false ->
  starLazy (inClass AnyChar)
    (fun s' caps' =>
       match stripPrefix closing s' with
       | Some s'' =>
           accept s'' (setCapture 1 (take (length (p ++ a ++ closing ++ b) - length s')
                                          (p ++ a ++ closing ++ b)) caps')
       | None => None
       end)
    (a ++ closing ++ b) caps
  = Some (setCapture 1 (p ++ a) caps, b).
Proof.
  revert p. induction a as [|c a IH]; intros p Ha.
  - cbn [app]. apply starLazy_now.
    rewrite stripPrefix_app, app_nil_r, take_consumed. done.
  - rewrite includes_closing_cons in Ha. apply orb_false_elim in Ha as [Hc Ha].
    cbn [app]. rewrite starLazy_later; [| |done].
    + specialize (IH (p ++ [c]) Ha). rewrite <- !app_assoc in IH. apply IH.
    + change closing with [93%N; 59%N]. cbn [stripPrefix].
      destruct (93 =? c)%N; [|done]. cbn [andb] in Hc.
      destruct a as [|d a]; cbn [app]; [done|by rewrite Hc].
Qed.

Lemma lazy_match a b caps :
  includes a closing = false ->
  rmatch (Group 1 (LazyStar AnyChar) ⋅ Chars closing) accept (a ++ closing ++ b) caps
  = Some (setCapture 1 a caps, b).
Proof. intros Ha. cbn [rmatch]. by apply (lazy_match_from []). Qed.

Lemma search_after_interface s :
  search arrayRegex (interfaceText ++ s) = search arrayRegex s.
Proof. reflexivity. Qed.

Lemma plainText_noClose v : plainText v = true -> includes v closing = false.
Proof. unfold plainText. by intros [_ ?%negb_true_iff]%andb_prop. Qed.

Ltac no_close :=
  repeat first
    [ done
    | apply noClose_skip; [by vm_compute|]
    | apply noClose_field; [by apply plainText_noClose| |by vm_compute]
    | apply (noClose_skip [_]); [by vm_compute|] ].

Lemma wellFormed_fields f :
  wellFormed f = true ->
  plainText (name f) = true /\ plainText (description f) = true /\
  plainText (url f) = true /\ plainText (avatar f) = true /\
  forall d, addDate f = Some d -> plainText d = true.
Proof.
  unfold wellFormed. intros H. repeat (apply andb_prop in H as [H ?]).
  repeat split; try done.
  intros d Hd. rewrite Hd in *. by destruct (present d).
Qed.

Lemma objectText_noClose f rest :
  wellFormed f = true -> includes rest closing = false ->
  includes (objectText f rest) closing = false.
Proof.
  intros (Hn & Hds & Hu & Ha & Hdate)%wellFormed_fields Hrest.
  assert (includes (closingText rest) closing = false) as Hc.
  { unfold closingText. rewrite app_assoc. by apply noClose_skip. }
  assert (forall key b s, forallb notBracket (lit key) = true ->
                          includes s closing = false ->
                          includes (flagText key b s) closing = false) as Hflag.
  { intros key b s Hk Hs. unfold flagText. destruct (truthy b); [|done].
    apply noClose_skip; [done|]. apply noClose_skip; [done|].
    apply noClose_skip; [done|]. by repeat (apply noClose_skip; [done|]). }
  assert (includes (dateText (addDate f)
                      (flagText "recommended:" (recommended f)
                         (flagText "disconnected:" (disconnected f)
                            (closingText rest)))) closing = false) as Hd.
  { unfold dateText. destruct (addDate f) as [[|x d]|] eqn:Ed; cbn [truthyText];
      try (by repeat apply Hflag).
    cbn [default from_option id].
    do 4 (apply noClose_skip; [done|]). apply (noClose_skip [dquote]); [done|].
    apply noClose_field; [by apply plainText_noClose, Hdate| |done].
    apply (noClose_skip [dquote]); [done|]. by repeat apply Hflag. }
  unfold objectText, fieldText.
  apply noClose_skip; [done|].
  do 3 (apply noClose_skip; [done|]). apply (noClose_skip [dquote]); [done|].
  apply noClose_field; [by apply plainText_noClose| |done].
  apply (noClose_skip [dquote]); [done|].
  do 4 (apply noClose_skip; [done|]). apply (noClose_skip [dquote]); [done|].
  apply noClose_field; [by apply plainText_noClose| |done].
  apply (noClose_skip [dquote]); [done|].
  do 4 (apply noClose_skip; [done|]). apply (noClose_skip [dquote]); [done|].
  apply noClose_field; [by apply plainText_noClose| |done].
  apply (noClose_skip [dquote]); [done|].
  do 4 (apply noClose_skip; [done|]). apply (noClose_skip [dquote]); [done|].
  apply noClose_field; [by apply plainText_noClose| |done].
  by apply (noClose_skip [dquote]).
Qed.

Lemma entries_noClose friends :
  forallb wellFormed friends = true ->
  includes (join separator (map entryText friends) ++ line ",") closing = false.
Proof.
  induction friends as [|f friends IH]; [done|].
  cbn [forallb]. intros [Hf Hwf]%andb_prop. specialize (IH Hwf).
  destruct friends as [|g friends].
  - cbn [map join]. rewrite entryText_objectText.
    apply noClose_skip; [done|]. by apply objectText_noClose.
  - change (join separator (map entryText (f :: g :: friends)))
      with (entryText f ++ separator ++ join separator (map entryText (g :: friends))).
    rewrite <- !app_assoc, entryText_objectText.
    apply noClose_skip; [done|]. apply objectText_noClose; [done|].
    by apply noClose_skip.
Qed.

Lemma entries_length friends :
  (length friends <= length (join separator (map entryText friends)))%nat.
Proof.
  induction friends as [|f friends IH]; [done|].
  pose proof (entryText_length f).
  destruct friends as [|g friends]; [cbn [map join length]; lia|].
  change (join separator (map entryText (f :: g :: friends)))
    with (entryText f ++ separator ++ join separator (map entryText (g :: friends))).
  rewrite !length_app. cbn [length] in *. lia.
Qed.

(** The text of the file, cut where the pattern of the array cuts it. *)
Lemma generateFriendsTs_shape friends :
  generateFriendsTs friends =
  interfaceText ++
  lit "export const FRIEND_LINKS:" ++
  lit " " ++ lit "FriendLink[]" ++
  lit " " ++ lit "=" ++
  lit " " ++ lit "[" ++
  (newline :: join separator (map entryText friends) ++ line ",") ++
  closing ++ [newline].
Proof.
  unfold generateFriendsTs, fileHeader, interfaceText, separator.
  cbv zeta. rewrite <- !app_assoc. cbn [app]. rewrite <- !app_assoc. reflexivity.
Qed.

Lemma array_match friends :
  forallb wellFormed friends = true ->
  exists m rest,
    search arrayRegex (generateFriendsTs friends) = Some (m, rest) /\
    m 1%nat = Some (newline :: join separator (map entryText friends) ++ line ",").
Proof.
  intros Hwf. rewrite generateFriendsTs_shape, search_after_interface.
  eexists _, _. split.
  - apply search_at. unfold matchAt, arrayRegex.
    rewrite rmatch_Chars. do 3 rewrite rmatch_ws_lit by side.
    apply lazy_match. apply (noClose_skip [newline]); [done|].
    by apply entries_noClose.
  - reflexivity.
Qed.

(** Reading back what was written. *)
Lemma parse_generate friends :
  forallb wellFormed friends = true ->
  parseFriendsTs (generateFriendsTs friends) = inr friends.
Proof.
  intros Hwf. unfold parseFriendsTs.
  destruct (array_match friends Hwf) as (m & rest & -> & ->).
  cbn [default from_option id].
  rewrite (execAll_entries friends [newline]); [done..|].
  pose proof (entries_length friends). cbn [length]. rewrite length_app. lia.
Qed.

(** ** What a match tells about the text *)

Lemma starGreedy_sound {R} p (k : Cont R) s caps res :
  starGreedy p k s caps = Some res ->
  exists v s', s = v ++ s' /\ forallb p v = true /\ k s' caps = Some res.
Proof.
  induction s as [|c s IH]; cbn [starGreedy]; intros H.
  - by exists [], [].
  - destruct (p c) eqn:Hc; [|by exists [], (c :: s)].
    destruct (starGreedy p k s caps) as [x|] eqn:E; [|by exists [], (c :: s)].
    destruct (IH H) as (v & s' & -> & Hv & Hk).
    exists (c :: v), s'. cbn [forallb]. by rewrite Hc, Hv.
Qed.

Lemma starLazy_sound {R} p (k : Cont R) s caps res :
  starLazy p k s caps = Some res ->
  exists v s', s = v ++ s' /\ forallb p v = true /\ k s' caps = Some res.
Proof.
  induction s as [|c s IH]; cbn [starLazy]; intros H.
  - destruct (k [] caps) eqn:E; [|done]. simplify_eq. by exists [], [].
  - destruct (k (c :: s) caps) eqn:E; [simplify_eq; by exists [], (c :: s)|].
    destruct (p c) eqn:Hc; [|done].
    destruct (IH H) as (v & s' & -> & Hv & Hk).
    exists (c :: v), s'. cbn [forallb]. by rewrite Hc, Hv.
Qed.

(** The matcher is sound: a successful run matched a prefix of the input
    and ran its continuation on the rest. *)
Lemma rmatch_sound {R} r (k : Cont R) s caps res :
  rmatch r k s caps = Some res ->
  exists v s' caps', s = v ++ s' /\ Matches r v caps caps' /\ k s' caps' = Some res.
Proof.
  revert k s caps.
  induction r as [l|cl|cl|cl|r1 IH1 r2 IH2|r1 IH1 r2 IH2|r0 IH|i r0 IH];
    intros k s caps H; cbn [rmatch] in H.
  - destruct (stripPrefix l s) as [s'|] eqn:E; [|done].
    apply stripPrefix_Some in E as ->. exists l, s', caps. by repeat split; [constructor|].
  - apply starGreedy_sound in H as (v & s' & -> & Hv & Hk).
    exists v, s', caps. by repeat split; [constructor|].
  - apply starLazy_sound in H as (v & s' & -> & Hv & Hk).
    exists v, s', caps. by repeat split; [constructor|].
  - destruct s as [|c s]; [done|]. destruct (inClass cl c) eqn:Hc; [|done].
    apply starGreedy_sound in H as (v & s' & -> & Hv & Hk).
    exists (c :: v), s', caps. repeat split; [|done].
    constructor; [done|]. cbn [forallb]. by rewrite Hc.
  - apply IH1 in H as (v1 & s1 & caps1 & -> & H1 & H).
    apply IH2 in H as (v2 & s2 & caps2 & -> & H2 & H).
    exists (v1 ++ v2), s2, caps2. rewrite <- app_assoc.
    repeat split; [|done]. by econstructor.
  - destruct (rmatch r1 k s caps) as [x|] eqn:E.
    + simplify_eq. apply IH1 in E as (v & s' & caps' & -> & H1 & Hk).
      exists v, s', caps'. by repeat split; [apply M_Alt_l|].
    + apply IH2 in H as (v & s' & caps' & -> & H2 & Hk).
      exists v, s', caps'. by repeat split; [apply M_Alt_r|].
  - match type of H with
    | match ?m with _ => _ end = _ => destruct m as [x|] eqn:E
    end.
    + simplify_eq. apply IH in E as (v & s' & caps' & -> & H1 & Hk).
      destruct (length s' =? length (v ++ s'))%nat; [done|].
      exists v, s', caps'. by repeat split; [apply M_Opt_some|].
    + exists [], s, caps. by repeat split; [apply M_Opt_none|].
  - apply IH in H as (v & s' & caps' & -> & H1 & Hk).
    rewrite take_consumed in Hk.
    exists v, s', (setCapture i v caps'). by repeat split; [constructor|].
Qed.

Lemma search_sound r s caps rest :
  search r s = Some (caps, rest) ->
  exists pre v, s = pre ++ v ++ rest /\ Matches r v noCaptures caps.
Proof.
  induction s as [|c s IH]; cbn [search]; intros H.
  - destruct (matchAt r []) as [x|] eqn:E; [|done]. simplify_eq.
    apply rmatch_sound in E as (v & s' & caps' & Hs & Hm & [= <- <-]).
    by exists [], v.
  - destruct (matchAt r (c :: s)) as [x|] eqn:E.
    + simplify_eq. apply rmatch_sound in E as (v & s' & caps' & Hs & Hm & [= <- <-]).
      by exists [], v.
    + destruct (IH H) as (pre & v & -> & Hm). by exists (c :: pre), v.
Qed.

Lemma noClose_app_inv a b :
  includes (a ++ b) closing = false ->
  includes a closing = false /\ includes b closing = false.
Proof.
  intros H. split.
  - apply (noClose_infix [] a b). done.
  - apply (noClose_infix a b []). by rewrite app_nil_r.
Qed.

Lemma plainText_intro v :
  forallb (inClass NotQuote) v = true -> includes v closing = false ->
  plainText v = true.
Proof.
  intros Hq Hc. unfold plainText. change (inClass NotQuote) with notQuote in Hq.
  by rewrite Hq, Hc.
Qed.

Lemma present_intro v : v <> [] -> present v = true.
Proof. by destruct v. Qed.

Lemma trueFlag_true : trueFlag (Some (lit "true")) = Some true.
Proof. by vm_compute. Qed.

Lemma trueFlag_false : trueFlag (Some (lit "false")) = None.
Proof. by vm_compute. Qed.

Lemma wellFormed_intro n d u a date r6 r7 :
  n <> [] -> plainText n = true -> d <> [] -> plainText d = true ->
  u <> [] -> plainText u = true -> a <> [] -> plainText a = true ->
  match date with Some v => plainText v = true | None => True end ->
  r6 <> Some false -> r7 <> Some false ->
  wellFormed {| name := n; description := d; url := u; avatar := a;
                addDate := orUndefined date; recommended := r6;
                disconnected := r7 |} = true.
Proof.
  intros Hn Hn' Hd Hd' Hu Hu' Ha Ha' Hdate H6 H7. unfold wellFormed.
  cbn [name description url avatar addDate recommended disconnected].
  rewrite !present_intro, Hn', Hd', Hu', Ha' by done. cbn [andb].
  replace (match orUndefined date with Some d0 => present d0 && plainText d0
                                  | None => true end) with true.
  - by destruct r6 as [[|]|], r7 as [[|]|].
  - destruct date as [[|x v]|]; cbn [orUndefined present andb]; done.
Qed.

Ltac inv_matches :=
  repeat match goal with
         | H : Matches (Seq _ _) _ _ _ |- _ => inversion H; subst; clear H
         | H : Matches (Chars _) _ _ _ |- _ => inversion H; subst; clear H
         | H : Matches (Star _) _ _ _ |- _ => inversion H; subst; clear H
         | H : Matches (Plus _) _ _ _ |- _ => inversion H; subst; clear H
         | H : Matches (Group _ _) _ _ _ |- _ => inversion H; subst; clear H
         | H : Matches (Opt _) _ _ _ |- _ => inversion H; subst; clear H
         | H : Matches (Alt _ _) _ _ _ |- _ => inversion H; subst; clear H
         end.

Ltac split_noClose :=
  repeat match goal with
         | H : includes (_ ++ _) closing = false |- _ =>
             apply noClose_app_inv in H as [? ?]
         end.

(** The object built from a match in a text without the end of the array is
    well formed. *)
Lemma object_wellFormed v objMatch :
  Matches objectRegex v noCaptures objMatch ->
  includes v closing = false ->
  wellFormed (friendOfMatch objMatch) = true.
Proof.
  unfold objectRegex, ws, quoted, trueOrFalse. intros H Hv.
  inv_matches; split_noClose; unfold friendOfMatch, setCapture, noCaptures;
    cbn [Nat.eqb default from_option id];
    rewrite ?trueFlag_true, ?trueFlag_false;
    (apply wellFormed_intro;
     [done|by apply plainText_intro|done|by apply plainText_intro
      |done|by apply plainText_intro|done|by apply plainText_intro
      |try done; by apply plainText_intro|done|done]).
Qed.

Lemma object_nonempty v objMatch :
  Matches objectRegex v noCaptures objMatch -> v <> [].
Proof.
  unfold objectRegex. intros H. inversion H; subst.
  match goal with H : Matches (Chars _) _ _ _ |- _ => inversion H; subst end.
  done.
Qed.

(** Every iteration of the loop of the parser consumes a character: the
    loop ends within [S (length s)] iterations. *)
Lemma execAll_enough_fuel fuel s :
  (length s < fuel)%nat -> is_Some (execAll fuel s).
Proof.
  revert s. induction fuel as [|fuel IH]; intros s Hs; [lia|]. cbn [execAll].
  destruct (search objectRegex s) as [[objMatch rest]|] eqn:E; [|by eexists].
  apply search_sound in E as (pre & v & -> & Hm).
  apply object_nonempty in Hm.
  destruct (IH rest) as [l Hl].
  - rewrite !length_app in Hs. destruct v; [done|]. cbn [length] in Hs. lia.
  - rewrite Hl. by eexists.
Qed.

Lemma execAll_wellFormed fuel s friends :
  execAll fuel s = Some friends ->
  includes s closing = false ->
  forallb wellFormed friends = true.
Proof.
  revert s friends. induction fuel as [|fuel IH]; intros s friends H Hs; [done|].
  cbn [execAll] in H.
  destruct (search objectRegex s) as [[objMatch rest]|] eqn:E; [|by simplify_eq].
  apply search_sound in E as (pre & v & -> & Hm).
  apply noClose_app_inv in Hs as [_ Hs]. apply noClose_app_inv in Hs as [Hv Hrest].
  destruct (execAll fuel rest) as [l|] eqn:El; [|done]. simplify_eq/=.
  rewrite (object_wellFormed _ _ Hm Hv). by apply (IH rest).
Qed.

(** The text that the lazy group of the pattern of the array captures holds
    no end of array. *)
Lemma lazy_sound_from p s caps m rest :
  starLazy (inClass AnyChar)
    (fun s' caps' =>
       match stripPrefix closing s' with
       | Some s'' =>
           accept s'' (setCapture 1 (take (length (p ++ s) - length s') (p ++ s)) caps')
       | None => None
       end)
    s caps = Some (m, rest) ->
  exists a, s = a ++ closing ++ rest /\ includes a closing = false /\
            m = setCapture 1 (p ++ a) caps.
Proof.
  revert p. induction s as [|c s IH]; intros p; cbn [starLazy].
  - change closing with [93%N; 59%N]. by cbn [stripPrefix].
  - destruct (stripPrefix closing (c :: s)) as [s''|] eqn:E.
    + intros [= <- <-]. exists []. apply stripPrefix_Some in E.
      rewrite E at 1 3. rewrite app_nil_r.
      replace (p ++ closing ++ s'') with (p ++ (closing ++ s'')) by done.
      rewrite <- E at 1. rewrite <- E at 2. rewrite take_consumed. done.
    + cbn [inClass]. intros H.
      replace (p ++ c :: s) with ((p ++ [c]) ++ s) in H by by rewrite <- app_assoc.
      apply IH in H as (a & -> & Ha & ->).
      exists (c :: a). rewrite <- app_assoc. repeat split.
      rewrite includes_closing_cons, Ha, orb_false_r.
      change closing with [93%N; 59%N] in E. cbn [stripPrefix] in E.
      destruct (93 =? c)%N; [|done]. destruct a as [|d a]; [done|].
      cbn [app] in E. by destruct (59 =? d)%N.
Qed.

Lemma rmatch_Seq_sound {R} r1 r2 (k : Cont R) s caps res :
  rmatch (r1 ⋅ r2) k s caps = Some res ->
  exists v s' caps',
    s = v ++ s' /\ Matches r1 v caps caps' /\ rmatch r2 k s' caps' = Some res.
Proof. intros H. cbn [rmatch] in H. by apply rmatch_sound in H. Qed.

Lemma array_capture_noClose content m rest :
  search arrayRegex content = Some (m, rest) ->
  includes (default [] (m 1%nat)) closing = false.
Proof.
  intros H. assert (exists s, matchAt arrayRegex s = Some (m, rest)) as [s Hs].
  { induction content as [|c content IH]; cbn [search] in H.
    - destruct (matchAt arrayRegex []) eqn:E; [|done]. exists []. congruence.
    - destruct (matchAt arrayRegex (c :: content)) eqn:E; [|by apply IH].
      exists (c :: content). congruence. }
  clear H. unfold matchAt, arrayRegex in Hs.
  do 7 (apply rmatch_Seq_sound in Hs as (? & ? & ? & -> & _ & Hs)).
  cbn [rmatch] in Hs.
  match type of Hs with
  | starLazy _ _ ?s ?caps = _ =>
      destruct (lazy_sound_from [] s caps m rest Hs) as (a & _ & Ha & ->)
  end.
  done.
Qed.

(** What the parser returns is well formed. *)
Lemma parse_wellFormed text friends :
  parseFriendsTs text = inr friends -> forallb wellFormed friends = true.
Proof.
  unfold parseFriendsTs.
  destruct (search arrayRegex text) as [[m rest]|] eqn:E; [|done].
  apply array_capture_noClose in E. cbv zeta.
  destruct (execAll (S (length (default [] (m 1%nat)))) (default [] (m 1%nat)))
    as [l|] eqn:El; intros [= <-]; [|done].
  by eapply execAll_wellFormed.
Qed.

(** C6, as the claim states it, fails: the required fields of this entry
    are present and not empty and it has no optional field, yet the parser
    finds no entry in the text that the generator writes for it. *)
Lemma quote_breaks_the_roundtrip :
  present (name friendQuote) = true /\
  parseFriendsTs (generateFriendsTs [friendQuote]) = inr [] /\
  parseFriendsTs (generateFriendsTs [friendQuote]) <> inr [friendQuote].
Proof. split; [done|]. split; [by vm_compute|]. by vm_compute. Qed.

(** C6, amended. The parser reads back every sequence of well-formed
    entries from the text that the generator writes for it, where an entry is
    well formed when its four required fields are not empty, none of its
    texts holds a double quote or the two characters that end the array, its
    date is not empty and its flags are absent or true. Whatever the parser
    returns is well formed; so the text that the generator writes for the
    entries parsed from any text is read back as these entries, and writing
    them again gives the same text, byte for byte. *)
Theorem parse_generate_roundtrip :
  (forall friends,
     forallb wellFormed friends = true ->
     parseFriendsTs (generateFriendsTs friends) = inr friends) /\
  (forall text friends,
     parseFriendsTs text = inr friends ->
     forallb wellFormed friends = true /\
     parseFriendsTs (generateFriendsTs friends) = inr friends /\
     forall again, parseFriendsTs (generateFriendsTs friends) = inr again ->
                   generateFriendsTs again = generateFriendsTs friends).
Proof.
  split; [apply parse_generate|].
  intros text friends H. pose proof (parse_wellFormed _ _ H) as Hwf.
  pose proof (parse_generate _ Hwf) as Hpg.
  repeat split; try done. intros again Ha. congruence.
Qed.

(** The entries of the specification's data file that the parser accepts
    are read back. *)
Example roundtrip_of_two_entries :
  let friends :=
    [ {| name := lit "ATao-Blog"; description := lit "blog";
         url := lit "https://blog.atao.cyou/";
         avatar := lit "https://cdn.atao.cyou/Web/Avatar.png";
         addDate := Some (lit "2026-02-21"); recommended := Some true;
         disconnected := None |};
      {| name := lit "Luxynth"; description := lit "site";
         url := lit "https://www.luxynth.cn";
         avatar := lit "https://www.luxynth.cn/assets/images/avatar.jpg";
         addDate := Some (lit "2025-09-09"); recommended := None;
         disconnected := Some true |} ] in
  forallb wellFormed friends = true /\
  parseFriendsTs (generateFriendsTs friends) = inr friends.
Proof. split; by vm_compute. Qed.

(** ** Scenarios *)

(** A reachable entry: both probes succeed at once, nothing is written and
    the run ends normally. *)
Example scenario_all_reachable :
  let friends := [friendOf "X" "https://good.example" None] in
  checkAndUpdate friends worldUp
  = (Returns tt,
     {| net := net worldUp; random := random worldUp; fetches := 2; randoms := 0;
        events := [EvFetch (lit "https://good.example");
                   EvFetch (lit "https://good.example/avatar.png")];
        dataFile := []; outputFile := None; fs := fs worldUp |}).
Proof. by vm_compute. Qed.

(** An entry whose probes all time out is flagged and reported, and the
    process exits with code 1. *)
Example scenario_dead_link :
  let friends := [friendOf "Y" "https://dead.example" None] in
  let w := (checkAndUpdate friends worldSilent).2 in
  (checkAndUpdate friends worldSilent).1 = Exits 1 /\
  dataFile w = generateFriendsTs [friendOf "Y" "https://dead.example" (Some true)] /\
  outputFile w =
    Some [{| info_name := lit "Y"; info_url := lit "https://dead.example";
             info_reason :=
               lit "URL: timeout (This operation was aborted), Avatar: timeout" |}].
Proof. by vm_compute. Qed.

(** A flagged entry is not probed: its flag is removed and the file is
    rewritten, even though no request was made. *)
Example scenario_flagged_entry :
  let friends := [friendOf "X" "https://x.example" (Some true)] in
  let w := (checkAndUpdate friends worldDown).2 in
  (checkAndUpdate friends worldDown).1 = Returns tt /\
  fetches w = 0%nat /\
  dataFile w = generateFriendsTs [friendOf "X" "https://x.example" None] /\
  outputFile w = None.
Proof. by vm_compute. Qed.

(** A page that answers and an avatar that is not found. *)
Example scenario_missing_avatar :
  let w0 := worldOf (fun _ u => if jsstring_eqb u (lit "https://good.example")
                                then Resolves true 200 120
                                else Resolves false 404 80) half in
  let friends := [friendOf "D" "https://good.example" None] in
  exists r w1,
    checkLink (friendOf "D" "https://good.example" None) w0 = (Returns r, w1) /\
    status r = Some OK /\ avatarStatus r = Some ERROR /\ fetches w1 = 4%nat /\
    outputFile (checkAndUpdate friends w0).2 =
      Some [{| info_name := lit "D"; info_url := lit "https://good.example";
               info_reason := lit "Avatar: error" |}].
Proof. eexists _, _. split; [vm_compute; reflexivity|]. by vm_compute. Qed.

Example trailing_comma_entry_is_skipped :
  parseFriendsTs dataFileExcerpt
  = inr [{| name := [26792; 23613; 20852]%N; description := lit "A place for peace";
            url := lit "https://blog.ljx.icu";
            avatar := lit "https://blog.ljx.icu/favicon.png";
            addDate := Some (lit "2026-02-20"); recommended := Some true;
            disconnected := None |}].
Proof. by vm_compute. Qed.

(** * Further properties of the checker *)

(** ** Requests and results of one entry *)

(** A resource check returns after one to three requests and at most two
    draws of a random number; it ends with a response, or without one and
    with the error of its last attempt; it leaves the files alone. *)
Lemma retryLoop_shape target w :
  exists res w' n,
    retryLoop target MAX_RETRIES 0 None w = (Returns res, w') /\
    (1 <= n <= 3)%nat /\ fetches w' = (fetches w + n)%nat /\
    (randoms w <= randoms w' <= randoms w + 2)%nat /\
    net w' = net w /\ dataFile w' = dataFile w /\ outputFile w' = outputFile w /\
    ((exists fr, res.1 = Some fr) \/ (res.1 = None /\ exists e, res.2 = Some e)).
Proof.
  destruct (probeFails (answer w target 0)) eqn:H0.
  2: { apply probeFails_false in H0 as (c & t & H0).
       eexists _, _, 1%nat. split; [by eapply retryLoop_first|].
       cbn. repeat split; try lia. left. by eexists. }
  destruct (probeFails (answer w target 1)) eqn:H1.
  2: { apply probeFails_false in H1 as (c & t & H1).
       eexists _, _, 2%nat. split; [by eapply retryLoop_second|].
       cbn. repeat split; try lia. left. by eexists. }
  destruct (probeFails (answer w target 2)) eqn:H2.
  2: { apply probeFails_false in H2 as (c & t & H2).
       eexists _, _, 3%nat. split; [by eapply retryLoop_third|].
       cbn. repeat split; try lia. left. by eexists. }
  eexists _, _, 3%nat. split; [by eapply retryLoop_exhausted|].
  cbn. repeat split; try lia. right. split; [done|]. by eexists.
Qed.

Lemma failureStatus_notOk e : notOk (Some (failureStatus e)) = true.
Proof. destruct e as [e|]; cbn; [|done]. by destruct (jsstring_eqb _ _). Qed.

(** X1. The result of [checkLink] bears the name, the address and the avatar
    of its entry; its two statuses and its two response times are always
    defined; it has an error text exactly when the status of the page is
    not OK, an HTTP status of the page only when that status is OK, and a
    response time of 0 whenever a status is not OK. The files are left as
    they were. *)
Theorem checkLink_result_invariants (friend : FriendLink) (w : World) :
  exists r w',
    checkLink friend w = (Returns r, w') /\
    res_name r = name friend /\ res_url r = url friend /\
    res_avatar r = avatar friend /\
    is_Some (status r) /\ is_Some (avatarStatus r) /\
    is_Some (responseTime r) /\ is_Some (avatarResponseTime r) /\
    (is_Some (reason r) <-> notOk (status r) = true) /\
    (is_Some (httpStatus r) -> status r = Some OK) /\
    (is_Some (avatarHttpStatus r) -> avatarStatus r = Some OK) /\
    (notOk (status r) = true -> responseTime r = Some 0) /\
    (notOk (avatarStatus r) = true -> avatarResponseTime r = Some 0) /\
    dataFile w' = dataFile w /\ outputFile w' = outputFile w.
Proof.
  destruct (truthy (disconnected friend)) eqn:Hd.
  - unfold checkLink. rewrite Hd. eexists _, _. split; [reflexivity|].
    cbn [res_name res_url res_avatar status avatarStatus responseTime
         avatarResponseTime reason httpStatus avatarHttpStatus notOk].
    repeat split; try done; try (by eexists); by intros [? ?].
  - destruct (retryLoop_shape (url friend) w)
      as (res1 & w1 & n1 & L1 & _ & _ & _ & _ & D1 & O1 & S1).
    destruct (retryLoop_shape (avatar friend) w1)
      as (res2 & w2 & n2 & L2 & _ & _ & _ & _ & D2 & O2 & S2).
    eexists _, _. split; [by eapply checkLink_unfold|].
    cbn [res_name res_url res_avatar status avatarStatus responseTime
         avatarResponseTime reason httpStatus avatarHttpStatus].
    destruct res1 as [o1 e1], res2 as [o2 e2]. cbn [fst snd] in *.
    destruct S1 as [[fr1 ->]|[-> [x1 ->]]], S2 as [[fr2 ->]|[-> [x2 ->]]];
      cbn [fmap option_fmap option_map];
      repeat split; try done; try (by eexists); try (by intros [? ?]);
      try (intros _; apply failureStatus_notOk); congruence.
Qed.

(** X2. When the page of an unflagged entry answers with a success status at
    the attempt of index [k], after [k] failed attempts, the result has
    status OK, the HTTP status and the response time of that answer, and no
    error text: the errors of the failed attempts leave no trace. The call
    made [k + 1] requests for the page and between one and three for the
    avatar. *)
Theorem first_success_is_reported (friend : FriendLink) (w : World)
        (k : nat) (c t : Z) :
  truthy (disconnected friend) = false ->
  (k < MAX_RETRIES)%nat ->
  (forall i, (i < k)%nat -> probeFails (answer w (url friend) i) = true) ->
  answer w (url friend) k = Resolves true c t ->
  exists r w',
    checkLink friend w = (Returns r, w') /\
    status r = Some OK /\ httpStatus r = Some c /\
    responseTime r = Some t /\ reason r = None /\
    (fetches w + S k + 1 <= fetches w' <= fetches w + S k + 3)%nat.
Proof.
  intros Hd Hk Hfail Hok.
  assert (exists e w1,
             retryLoop (url friend) MAX_RETRIES 0 None w =
             (Returns (Some {| ok := true; code := c; time := t |}, e), w1) /\
             fetches w1 = (fetches w + S k)%nat) as (e & w1 & L1 & F1).
  { unfold MAX_RETRIES in Hk.
    destruct k as [|[|[|k]]]; [| | |lia].
    - eexists _, _. split; [by eapply retryLoop_first|]. cbn. lia.
    - eexists _, _. split; [eapply retryLoop_second; [apply Hfail; lia|done]|].
      cbn. lia.
    - eexists _, _.
      split; [eapply retryLoop_third; [apply Hfail; lia|apply Hfail; lia|done]|].
      cbn. lia. }
  destruct (retryLoop_shape (avatar friend) w1)
    as (res2 & w2 & n2 & L2 & Hn & F2 & _).
  eexists _, _. split; [by eapply checkLink_unfold|].
  cbn [status httpStatus responseTime reason fst snd fmap option_fmap option_map
       code time].
  repeat split; lia.
Qed.

Lemma first_success_is_reported_witness :
  exists r w',
    checkLink (friendOf "A" "https://a.example" None) worldFlaky = (Returns r, w') /\
    status r = Some OK /\ httpStatus r = Some 200 /\
    responseTime r = Some 80 /\ reason r = None /\
    (fetches worldFlaky + 2 + 1 <= fetches w' <= fetches worldFlaky + 2 + 3)%nat.
Proof.
  apply (first_success_is_reported
           (friendOf "A" "https://a.example" None) worldFlaky 1 200 80).
  - reflexivity.
  - unfold MAX_RETRIES. lia.
  - intros [|i] Hi; [reflexivity|lia].
  - reflexivity.
Defined.

(** ** Requests of a whole pass *)



(** ** Reports *)

Lemma reasonText_nonempty r : isFailed r = true -> reasonText r <> [].
Proof.
  unfold isFailed, reasonText. intros H.
  destruct (notOk (status r)); [by cbn|].
  destruct (notOk (avatarStatus r)); [by cbn|].
  by destruct (mentionsMarker r).
Qed.

(** X4. Every record of the report bears the name and the address of an
    entry of the data file that was not flagged when the run began, and its
    reason is never empty: a flagged entry is never reported. *)
Theorem report_lists_unflagged_entries (friends : list FriendLink) (w : World) :
  exists results w',
    checkAll friends w = (Returns results, w') /\
    forall d, In d (disconnectedList (failed results)) ->
              info_reason d <> [] /\
              exists f, In f friends /\ truthy (disconnected f) = false /\
                        info_name d = name f /\ info_url d = url f.
Proof.
  destruct (checkAll_spec friends w) as (results & w' & Hc & HF & _).
  exists results, w'. split; [done|]. intros d Hd.
  unfold disconnectedList in Hd. apply in_map_iff in Hd as (r & <- & Hr).
  apply filter_In in Hr as [Hr Hfail]. split.
  - rewrite disconnectedInfo_reason. by apply reasonText_nonempty.
  - apply list_elem_of_In, list_elem_of_lookup in Hr as [i Hi].
    destruct (Forall2_lookup_r _ _ _ _ _ HF Hi) as (f & Hf & Hn & Hu & Hflag).
    exists f. split; [by eapply list_elem_of_In, list_elem_of_lookup_2|].
    split; [|done].
    destruct (truthy (disconnected f)); [|done].
    destruct Hflag as (Hs & Ha & _); [done|].
    unfold isFailed in Hfail. by rewrite Hs, Ha in Hfail.
Qed.

(** ** Entries with distinct names *)

(** X5. When the names of the entries are pairwise distinct, every entry is
    matched with its own result, and a run with a report always rewrites
    the data file: some entry of the report is flagged there, and was not
    before. The file is written when the file operations succeed. *)
Theorem distinct_names_own_result (friends : list FriendLink) (w : World) :
  NoDup (map name friends) ->
  exists results w',
    checkAll friends w = (Returns results, w') /\
    (forall i f, friends !! i = Some f -> findResult results f = results !! i) /\
    (failed results <> [] ->
     hasChanges (updatedFriends friends results) friends = true /\
     (diskOk w ->
      dataFile (checkAndUpdate friends w).2 =
        generateFriendsTs (updatedFriends friends results))).
Proof.
  intros Hnd.
  destruct (checkAll_spec friends w) as (results & w' & Hc & HF & _).
  exists results, w'. split; [done|].
  assert (forall i f, friends !! i = Some f -> findResult results f = results !! i) as Hown.
  { intros i f Hi.
    destruct (findResult_first friends results i f HF Hi) as (r & -> & Hr & _);
      [by apply NoDup_names_first|done]. }
  split; [done|]. intros Hfail.
  assert (hasChanges (updatedFriends friends results) friends = true) as Hch.
  { destruct (failed results) as [|r l] eqn:E; [done|].
    assert (In r (failed results)) as Hr by (rewrite E; by left).
    apply filter_In in Hr as [Hr Hf].
    apply list_elem_of_In, list_elem_of_lookup in Hr as [i Hi].
    destruct (Forall2_lookup_r _ _ _ _ _ HF Hi) as (f & Hfi & _ & _ & Hflag).
    apply hasChanges_iff. exists i, f, (updateFriend results f).
    split; [done|]. split; [unfold updatedFriends; by rewrite list_lookup_fmap, Hfi|].
    assert (notOk (status r) || notOk (avatarStatus r) = true) as Hbad.
    { unfold isFailed in Hf. destruct (notOk (status r)); [done|].
      by destruct (notOk (avatarStatus r)). }
    unfold updateFriend. cbv zeta. rewrite (Hown i f Hfi), Hi, Hbad.
    cbn [setDisconnected disconnected]. intros Heq.
    destruct Hflag as (Hs & Ha & _); [by rewrite <- Heq|].
    by rewrite Hs, Ha in Hbad. }
  split; [done|]. intros Hok.
  rewrite (checkAndUpdate_spec _ _ _ _ Hok Hc).
  destruct (failed results); [done|]. cbn [length Nat.ltb Nat.leb snd].
  by rewrite Hch.
Qed.

Lemma distinct_names_own_result_witness :
  exists results w',
    checkAll [friendOf "A" "https://a.example" None;
              friendOf "B" "https://b.example" (Some true)] worldDown
    = (Returns results, w') /\
    (forall i f, [friendOf "A" "https://a.example" None;
                  friendOf "B" "https://b.example" (Some true)] !! i = Some f ->
                 findResult results f = results !! i) /\
    (failed results <> [] ->
     hasChanges (updatedFriends
                   [friendOf "A" "https://a.example" None;
                    friendOf "B" "https://b.example" (Some true)] results)
                [friendOf "A" "https://a.example" None;
                 friendOf "B" "https://b.example" (Some true)] = true /\
     (diskOk worldDown ->
      dataFile (checkAndUpdate
                  [friendOf "A" "https://a.example" None;
                   friendOf "B" "https://b.example" (Some true)] worldDown).2 =
        generateFriendsTs
          (updatedFriends [friendOf "A" "https://a.example" None;
                           friendOf "B" "https://b.example" (Some true)] results))).
Proof.
  apply (distinct_names_own_result
           [friendOf "A" "https://a.example" None;
            friendOf "B" "https://b.example" (Some true)] worldDown).
  apply (bool_decide_unpack _). by vm_compute.
Defined.

(** ** Time spent waiting between attempts *)

Lemma sleepTotal_app es es' : sleepTotal (es ++ es') = sleepTotal es + sleepTotal es'.
Proof.
  induction es as [|[t|d] es IH]; cbn [app sleepTotal]; lia.
Qed.

Lemma slept_afterFetch target w : slept (afterFetch target w) = slept w.
Proof. unfold slept. cbn [afterFetch events]. rewrite sleepTotal_app. cbn. lia. Qed.

Lemma slept_afterSleep i w :
  slept (afterSleep i w) = slept w + retryDelay i (random w (randoms w)).
Proof. unfold slept. cbn [afterSleep events]. rewrite sleepTotal_app. cbn. lia. Qed.

(** A resource check sleeps less than 3200 ms in all: nothing when the
    first attempt succeeds, and no less than 3000 ms when all attempts
    fail. *)
Lemma retryLoop_sleeps target w :
  fairRandom w ->
  exists res w',
    retryLoop target MAX_RETRIES 0 None w = (Returns res, w') /\
    random w' = random w /\
    slept w <= slept w' < slept w + 3200 /\
    (res.1 = None -> slept w + 3000 <= slept w').
Proof.
  intros Hfair.
  assert (forall i n, 1000 * 2 ^ Z.of_nat i <= retryDelay i (random w n)
                      < 1000 * 2 ^ Z.of_nat i + 100) as Hdelay.
  { intros i n. apply retryDelay_range; apply Hfair. }
  pose proof (Hdelay 0%nat (randoms w)) as Hd0.
  pose proof (Hdelay 1%nat (S (randoms w))) as Hd1.
  change (2 ^ Z.of_nat 0) with 1 in Hd0. change (2 ^ Z.of_nat 1) with 2 in Hd1.
  destruct (probeFails (answer w target 0)) eqn:H0.
  2: { apply probeFails_false in H0 as (c & t & H0).
       eexists _, _. split; [by eapply retryLoop_first|].
       rewrite slept_afterFetch. cbn [fst]. repeat split; (done || lia). }
  destruct (probeFails (answer w target 1)) eqn:H1.
  2: { apply probeFails_false in H1 as (c & t & H1).
       eexists _, _. split; [by eapply retryLoop_second|].
       unfold retry1. rewrite slept_afterFetch, slept_afterSleep, slept_afterFetch.
       cbn [afterFetch random randoms fst]. repeat split; (done || lia). }
  assert (slept (afterFetch target (retry2 target w)) =
          slept w + retryDelay 0 (random w (randoms w))
          + retryDelay 1 (random w (S (randoms w)))) as Hs.
  { unfold retry2, retry1.
    rewrite !slept_afterFetch, slept_afterSleep, slept_afterFetch, slept_afterSleep,
      slept_afterFetch. reflexivity. }
  destruct (probeFails (answer w target 2)) eqn:H2.
  2: { apply probeFails_false in H2 as (c & t & H2).
       eexists _, _. split; [by eapply retryLoop_third|].
       rewrite Hs. cbn [fst]. repeat split; (done || lia). }
  eexists _, _. split; [by eapply retryLoop_exhausted|].
  rewrite Hs. cbn [fst]. repeat split; (done || lia).
Qed.

Lemma fairRandom_same w w' : random w' = random w -> fairRandom w -> fairRandom w'.
Proof. unfold fairRandom. by intros ->. Qed.

Lemma checkLink_sleeps friend w :
  fairRandom w ->
  exists r w',
    checkLink friend w = (Returns r, w') /\ random w' = random w /\
    slept w <= slept w' /\
    slept w' <= slept w + (if truthy (disconnected friend) then 0 else 6400).
Proof.
  intros Hfair. destruct (truthy (disconnected friend)) eqn:Hd.
  - unfold checkLink. rewrite Hd. eexists _, _. split; [reflexivity|].
    repeat split; lia.
  - destruct (retryLoop_sleeps (url friend) w Hfair)
      as (res1 & w1 & L1 & R1 & S1 & _).
    destruct (retryLoop_sleeps (avatar friend) w1 (fairRandom_same _ _ R1 Hfair))
      as (res2 & w2 & L2 & R2 & S2 & _).
    eexists _, _. split; [by eapply checkLink_unfold|].
    split; [congruence|]. lia.
Qed.

(** X6. With random numbers in [0, 1), a pass over the entries sleeps no
    more than 6400 ms between attempts for each entry that is not flagged,
    whatever the network does, and it does not sleep at all when every
    entry is flagged. *)
Theorem checkAll_sleep_budget (friends : list FriendLink) (w : World) :
  fairRandom w ->
  exists results w',
    checkAll friends w = (Returns results, w') /\
    slept w <= slept w' /\
    slept w' <= slept w + 6400 * Z.of_nat (length (probed friends)).
Proof.
  revert w. induction friends as [|f friends IH]; intros w Hfair.
  - exists [], w. cbn. repeat split; lia.
  - destruct (checkLink_sleeps f w Hfair) as (r & w1 & Hc & Hr & Hlo & Hhi).
    destruct (IH w1 (fairRandom_same _ _ Hr Hfair)) as (rs & w2 & Ha & Hlo' & Hhi').
    exists (r :: rs), w2. cbn [checkAll].
    erewrite bind_returns by eassumption.
    erewrite bind_returns by eassumption.
    split; [done|]. unfold probed in *. cbn [List.filter].
    destruct (truthy (disconnected f)); cbn [negb length]; lia.
Qed.

Lemma checkAll_sleep_budget_witness :
  exists results w',
    checkAll [friendOf "A" "https://a.example" None;
              friendOf "B" "https://b.example" (Some true)] worldDown
    = (Returns results, w') /\
    slept worldDown <= slept w' /\
    slept w' <= slept worldDown +
                6400 * Z.of_nat (length (probed [friendOf "A" "https://a.example" None;
                                                 friendOf "B" "https://b.example"
                                                          (Some true)])).
Proof.
  apply (checkAll_sleep_budget
           [friendOf "A" "https://a.example" None;
            friendOf "B" "https://b.example" (Some true)] worldDown).
  intros n. split; by compute.
Defined.

(** * Further properties of the parser and of the generator *)

(** ** The declaration of the array *)

Lemma startsWith_app l s : startsWith l (l ++ s) = true.
Proof. induction l as [|c l IH]; [done|]. cbn. by rewrite N.eqb_refl. Qed.

Lemma includes_app a l b : includes (a ++ l ++ b) l = true.
Proof.
  induction a as [|c a IH].
  - cbn [app]. destruct (l ++ b) eqn:E; cbn [includes]; rewrite <- E;
      by rewrite startsWith_app.
  - cbn [app includes]. rewrite IH. by rewrite orb_true_r.
Qed.

(** A text that holds an end of array is cut at the first one. *)
Lemma split_first_closing s :
  includes s closing = true ->
  exists a b, s = a ++ closing ++ b /\ includes a closing = false.
Proof.
  induction s as [|c s IH]; [done|]. rewrite includes_closing_cons.
  destruct ((93 =? c)%N && match s with d :: _ => (59 =? d)%N | [] => false end)
    eqn:E.
  - intros _. apply andb_prop in E as [Hc%N.eqb_eq E]. subst c.
    destruct s as [|d s]; [done|]. apply N.eqb_eq in E. subst d.
    by exists [], s.
  - cbn [orb]. intros (a & b & -> & Ha)%IH. exists (c :: a), b. split; [done|].
    rewrite includes_closing_cons, Ha, orb_false_r.
    destruct a as [|d a]; [by rewrite andb_false_r|done].
Qed.

Lemma search_complete r pre s :
  is_Some (matchAt r s) -> is_Some (search r (pre ++ s)).
Proof.
  intros [x Hx]. induction pre as [|c pre IH].
  - exists x. by apply search_at.
  - cbn [app search]. by destruct (matchAt r (c :: pre ++ s)).
Qed.

Lemma declares_search content : declares content -> is_Some (search arrayRegex content).
Proof.
  intros (pre & w1 & w2 & w3 & body & rest & H1 & H2 & H3 & ->).
  apply search_complete. unfold declarationText, matchAt, arrayRegex.
  rewrite <- !app_assoc. rewrite rmatch_Chars.
  do 3 rewrite rmatch_ws_lit by side.
  destruct (split_first_closing (body ++ closing ++ rest)) as (a & b & -> & Ha);
    [apply includes_app|].
  rewrite lazy_match by done. by eexists.
Qed.

Lemma Matches_lit l r v caps caps' :
  Matches (Chars l ⋅ r) v caps caps' ->
  exists v', v = l ++ v' /\ Matches r v' caps caps'.
Proof.
  intros H. inversion H as [| | | |? ? v1 v2 ? caps1 ? H1 H2| | | | |]; subst.
  inversion H1; subst. by exists v2.
Qed.

Lemma Matches_ws r v caps caps' :
  Matches (ws ⋅ r) v caps caps' ->
  exists w v', forallb isSpace w = true /\ v = w ++ v' /\ Matches r v' caps caps'.
Proof.
  intros H. inversion H as [| | | |? ? v1 v2 ? caps1 ? H1 H2| | | | |]; subst.
  inversion H1; subst. by exists v1, v2.
Qed.

Lemma search_declares content x : search arrayRegex content = Some x -> declares content.
Proof.
  destruct x as [m rest]. intros (pre & v & -> & Hm)%search_sound.
  unfold arrayRegex in Hm.
  apply Matches_lit in Hm as (? & -> & Hm). apply Matches_ws in Hm as (w1 & ? & H1 & -> & Hm).
  apply Matches_lit in Hm as (? & -> & Hm). apply Matches_ws in Hm as (w2 & ? & H2 & -> & Hm).
  apply Matches_lit in Hm as (? & -> & Hm). apply Matches_ws in Hm as (w3 & ? & H3 & -> & Hm).
  apply Matches_lit in Hm as (? & -> & Hm).
  inversion Hm as [| | | |? ? body v2 ? caps1 ? Hb Hc| | | | |]; subst.
  inversion Hc; subst.
  exists pre, w1, w2, w3, body, rest. by repeat split.
Qed.

(** X7. [parseFriendsTs] returns entries exactly for the texts that hold a
    declaration of the array, which is the text
    [export const FRIEND_LINKS:], the text [FriendLink[]], an equals sign
    and an opening bracket, with any white space or none between them,
    followed somewhere by the two characters that end the array; for every
    other text it throws its error. *)
Theorem parse_succeeds_iff_declared (content : jsstring) :
  (declares content <-> exists friends, parseFriendsTs content = inr friends) /\
  (~ declares content <-> parseFriendsTs content = inl parseError).
Proof.
  assert (declares content <-> is_Some (search arrayRegex content)) as Hs.
  { split; [apply declares_search|]. intros [x Hx]. by eapply search_declares. }
  unfold parseFriendsTs, parseError. rewrite Hs.
  destruct (search arrayRegex content) as [[m rest]|].
  - split.
    + split; [intros _; by eexists|by eexists].
    + split; [intros []; by eexists|done].
  - split.
    + split; [by intros [? ?]|by intros [? ?]].
    + split; [done|]. by intros _ [? ?].
Qed.

(** ** What the generator writes *)

Lemma generateFriendsTs_declares friends : declares (generateFriendsTs friends).
Proof.
  rewrite generateFriendsTs_shape.
  exists interfaceText, (lit " "), (lit " "), (lit " "),
    (newline :: join separator (map entryText friends) ++ line ","), [newline].
  repeat split. unfold declarationText. by rewrite <- !app_assoc.
Qed.

(** X8. The text that [generateFriendsTs] writes is always accepted by
    [parseFriendsTs], whatever the entries hold: reading a file that the
    script wrote never throws, and the entries read are well formed. *)
Theorem generated_file_parses (friends : list FriendLink) :
  exists again,
    parseFriendsTs (generateFriendsTs friends) = inr again /\
    forallb wellFormed again = true.
Proof.
  destruct (declares_search _ (generateFriendsTs_declares friends)) as [[m rest] Hm].
  destruct (parseFriendsTs (generateFriendsTs friends)) as [e|again] eqn:E.
  - unfold parseFriendsTs in E. by rewrite Hm in E.
  - exists again. split; [done|]. by eapply parse_wellFormed.
Qed.

Lemma entryText_normalize f : entryText (normalize f) = entryText f.
Proof.
  unfold entryText, normalize. cbn [name description url avatar addDate recommended
                                    disconnected].
  f_equal. do 13 f_equal.
  destruct (addDate f) as [[|c d]|], (recommended f) as [[|]|],
    (disconnected f) as [[|]|]; reflexivity.
Qed.

Lemma normalize_wellFormed f : wellFormed f = true -> normalize f = f.
Proof.
  unfold wellFormed, normalize. intros H. repeat (apply andb_prop in H as [H ?]).
  destruct f as [n d u a [[|c dt]|] [[|]|] [[|]|]]; cbn in *; done.
Qed.

(** X9. Reading back what the generator wrote gives the entries in the form
    the file keeps them, with empty dates and flags that are [false] left
    out, and the normal forms write the same text, provided these normal
    forms are well formed; a well-formed entry is its own normal form. *)
Theorem roundtrip_normalizes (friends : list FriendLink) :
  forallb wellFormed (map normalize friends) = true ->
  parseFriendsTs (generateFriendsTs friends) = inr (map normalize friends) /\
  generateFriendsTs (map normalize friends) = generateFriendsTs friends /\
  map normalize (map normalize friends) = map normalize friends.
Proof.
  intros Hwf.
  assert (generateFriendsTs (map normalize friends) = generateFriendsTs friends) as Hg.
  { unfold generateFriendsTs. cbv zeta. rewrite map_map.
    rewrite (map_ext (fun f => entryText (normalize f)) entryText); [done|].
    apply entryText_normalize. }
  split; [|split; [done|]].
  - rewrite <- Hg. by apply parse_generate.
  - transitivity (map id (map normalize friends)); [|apply List.map_id].
    apply map_ext_in. intros f Hf. apply normalize_wellFormed.
    rewrite forallb_forall in Hwf. by apply Hwf.
Qed.

Lemma roundtrip_normalizes_witness :
  parseFriendsTs (generateFriendsTs [friendVerbose]) = inr (map normalize [friendVerbose]) /\
  generateFriendsTs (map normalize [friendVerbose]) = generateFriendsTs [friendVerbose] /\
  map normalize (map normalize [friendVerbose]) = map normalize [friendVerbose].
Proof. apply (roundtrip_normalizes [friendVerbose]). by vm_compute. Defined.

(** ** The loop of the parser *)

(** X10. The loop of [parseFriendsTs] ends: every match of the pattern of an
    object consumes a character, so with more iterations allowed than the
    text has characters the loop returns, it returns the same entries
    however many more are allowed, and no more entries than the text has
    characters. *)
Theorem parser_loop_terminates (fuel : nat) (s : jsstring) :
  (length s < fuel)%nat ->
  exists friends,
    execAll fuel s = Some friends /\
    execAll (S (length s)) s = Some friends /\
    (length friends <= length s)%nat.
Proof.
  assert (forall n s, (length s < n)%nat ->
            exists friends, execAll n s = Some friends /\
                            (length friends <= length s)%nat /\
                            forall n', (length s < n')%nat -> execAll n' s = Some friends)
    as Hloop.
  { clear. induction n as [|n IH]; intros s Hs; [lia|]. cbn [execAll].
    destruct (search objectRegex s) as [[objMatch rest]|] eqn:E.
    - apply search_sound in E as Hsound. destruct Hsound as (pre & v & Hv & Hm).
      apply object_nonempty in Hm.
      assert (length rest < length s)%nat as Hrest.
      { rewrite Hv, !length_app. destruct v; [done|]. cbn [length]. lia. }
      destruct (IH rest) as (l & Hl & Hlen & Hmore); [lia|].
      exists (friendOfMatch objMatch :: l). rewrite Hl. split; [done|].
      split; [cbn [length]; lia|].
      intros [|n'] Hn'; [lia|]. cbn [execAll]. rewrite E.
      rewrite Hmore by lia. done.
    - exists []. split; [done|]. split; [cbn; lia|].
      intros [|n'] Hn'; [lia|]. cbn [execAll]. by rewrite E. }
  intros Hs. destruct (Hloop fuel s Hs) as (friends & Hf & Hlen & Hmore).
  exists friends. split; [done|]. split; [apply Hmore; lia|done].
Qed.

Lemma parser_loop_terminates_witness :
  exists friends,
    execAll 400 (entryText (friendOf "A" "https://a.example" None)) = Some friends /\
    execAll (S (length (entryText (friendOf "A" "https://a.example" None))))
            (entryText (friendOf "A" "https://a.example" None)) = Some friends /\
    (length friends <= length (entryText (friendOf "A" "https://a.example" None)))%nat.
Proof.
  apply (parser_loop_terminates 400 (entryText (friendOf "A" "https://a.example" None))).
  vm_compute. lia.
Defined.

(** ** The data file across runs *)

Lemma wellFormed_setDisconnected f d :
  wellFormed f = true -> d <> Some false ->
  wellFormed (setDisconnected f d) = true.
Proof.
  unfold wellFormed. cbn [setDisconnected name description url avatar addDate
                          recommended disconnected].
  intros [-> _]%andb_prop Hd. by destruct d as [[|]|].
Qed.

Lemma updateFriend_wellFormed results f :
  wellFormed f = true -> wellFormed (updateFriend results f) = true.
Proof.
  intros Hf. unfold updateFriend.
  repeat match goal with |- context [if ?b then _ else _] => destruct b end;
    try done; by apply wellFormed_setDisconnected.
Qed.

Lemma clearFlag_wellFormed f : wellFormed f = true -> wellFormed (clearFlag f) = true.
Proof.
  intros Hf. unfold clearFlag. destruct (truthy (disconnected f)); [|done].
  by apply wellFormed_setDisconnected.
Qed.

Lemma forallb_map_wellFormed (g : FriendLink -> FriendLink) friends :
  (forall f, wellFormed f = true -> wellFormed (g f) = true) ->
  forallb wellFormed friends = true -> forallb wellFormed (map g friends) = true.
Proof.
  intros Hg. induction friends as [|f friends IH]; [done|]. cbn [map forallb].
  intros [Hf Hfs]%andb_prop. by rewrite Hg, IH.
Qed.

Lemma sameButFlag_map (g : FriendLink -> FriendLink) friends :
  (forall f, g f = setDisconnected f (disconnected (g f))) ->
  Forall2 sameButFlag friends (map g friends).
Proof.
  intros Hg. induction friends as [|f friends IH]; constructor; [|done].
  unfold sameButFlag. rewrite Hg, setDisconnected_twice. apply setDisconnected_same.
Qed.

(** What a run does to the data file, whether its file operations succeed
    or not: it leaves it alone, or it writes the text of entries that are
    the entries read, with other flags. *)
Lemma main_dataFile (w : World) (friends : list FriendLink) :
  parseFriendsTs (dataFile w) = inr friends ->
  dataFile (main w).2 = dataFile w \/
  exists kept,
    dataFile (main w).2 = generateFriendsTs kept /\
    Forall2 sameButFlag friends kept /\ forallb wellFormed kept = true.
Proof.
  intros Hp. pose proof (parse_wellFormed _ _ Hp) as Hwf.
  rewrite main_cases, Hp.
  destruct (fs w ReadData); [by left|].
  destruct (checkAll_spec friends w) as (results & w1 & Hc & _ & Hd & _).
  rewrite (checkAndUpdate_cases _ _ _ _ Hc).
  destruct (0 <? length (failed results))%nat.
  - destruct (fs w WriteReport); [by left|].
    destruct (hasChanges (updatedFriends friends results) friends); [|by left].
    destruct (fs w WriteData); [by left|].
    right. exists (updatedFriends friends results). split; [done|]. split.
    + apply sameButFlag_map, updateFriend_frame.
    + apply forallb_map_wellFormed; [|done]. apply updateFriend_wellFormed.
  - destruct (0 <? length (recoveredFriends friends))%nat; [|by left].
    destruct (fs w WriteData); [by left|].
    right. exists (clearedFriends friends). split; [done|]. split.
    + apply sameButFlag_map, clearFlag_frame.
    + apply forallb_map_wellFormed; [|done]. apply clearFlag_wellFormed.
Qed.

(** X11. A run that starts with a data file it can read leaves a data file
    that the next run can read: the entries read from it are the entries
    of this run, as many and in the same order, and they differ from them
    in the flag [disconnected] at most. *)
Theorem main_keeps_file_readable (w : World) (friends : list FriendLink) :
  parseFriendsTs (dataFile w) = inr friends ->
  exists kept,
    parseFriendsTs (dataFile (main w).2) = inr kept /\
    Forall2 sameButFlag friends kept.
Proof.
  intros Hp. destruct (main_dataFile w friends Hp) as [->|(kept & -> & Hk & Hwf)].
  - exists friends. split; [done|].
    rewrite <- (List.map_id friends) at 2. apply sameButFlag_map.
    intros f. symmetry. apply setDisconnected_same.
  - exists kept. split; [by apply parse_generate|done].
Qed.

Lemma main_keeps_file_readable_witness :
  exists kept,
    parseFriendsTs
      (dataFile (main (withFiles worldDown
                         (generateFriendsTs [friendOf "A" "https://a.example" None])
                         None)).2) = inr kept /\
    Forall2 sameButFlag [friendOf "A" "https://a.example" None] kept.
Proof.
  apply (main_keeps_file_readable
           (withFiles worldDown
              (generateFriendsTs [friendOf "A" "https://a.example" None]) None)
           [friendOf "A" "https://a.example" None]).
  by vm_compute.
Defined.

(** ** A comma after the last field *)

Lemma fail_ws_plain {R} l (k : Cont R) s caps :
  startsPlain l = true -> startsPlain s = true -> stripPrefix l s = None ->
  rmatch (ws ⋅ Chars l) k s caps = None.
Proof.
  intros Hl Hs Hn. destruct l as [|c l]; [done|]. destruct s as [|d s]; [done|].
  unfold ws. cbn [rmatch inClass]. rewrite starGreedy_exact.
  - cbn [dropWhile inClass]. cbn [startsPlain] in Hs. apply negb_true_iff in Hs.
    rewrite Hs. by rewrite Hn.
  - apply (rejects_Chars isSpace c l k). by apply negb_true_iff.
Qed.

Ltac optional_step :=
  first [ rewrite rmatch_Opt_field by side
        | rewrite rmatch_Chars
        | rewrite rmatch_ws_lit by side
        | rewrite rmatch_ws_true by side
        | rewrite rmatch_ws_quoted_star by side
        | rewrite fail_ws_lit by side
        | rewrite fail_lit by side
        | rewrite fail_ws_plain by side ].

(** The optional fields, then a comma: the pattern has no way through. *)
Lemma optional_comma_fail d r6 r7 rest caps :
  match d with
  | Some v => forallb notQuote v = true
  | None => True
  end ->
  rmatch (Opt (Chars (lit ",") ⋅ ws ⋅ Chars (lit "addDate:") ⋅ ws ⋅
               quoted 5 (Star NotQuote)) ⋅
          Opt (Chars (lit ",") ⋅ ws ⋅ Chars (lit "recommended:") ⋅ ws ⋅
               trueOrFalse 6) ⋅
          Opt (Chars (lit ",") ⋅ ws ⋅ Chars (lit "disconnected:") ⋅ ws ⋅
               trueOrFalse 7) ⋅
          ws ⋅ Chars (lit "}"))
         accept
         (dateText d
            (flagText "recommended:" r6
               (flagText "disconnected:" r7 (lit "," ++ closingText rest))))
         caps
  = None.
Proof.
  intros Hd. unfold dateText, flagText, closingText.
  destruct (truthyText d) eqn:Ed.
  - destruct d as [[|x v]|]; try done. cbn [default from_option id].
    destruct (truthy r6), (truthy r7); repeat optional_step; done.
  - destruct (truthy r6), (truthy r7); repeat optional_step; done.
Qed.

(** The pattern of an object does not match at the brace of an entry whose
    last field is followed by a comma. *)
Lemma object_comma_fail f rest :
  wellFormed f = true ->
  matchAt objectRegex (objectTextWith true f rest) = None.
Proof.
  unfold wellFormed. intros H.
  repeat (apply andb_prop in H as [H ?]).
  unfold matchAt, objectRegex, objectTextWith, fieldText, lastComma.
  rewrite rmatch_Chars.
  rewrite rmatch_ws_lit by side.
  rewrite rmatch_ws_quoted_plus by value_side.
  rewrite rmatch_Chars, rmatch_ws_lit by side.
  rewrite rmatch_ws_quoted_plus by value_side.
  rewrite rmatch_Chars, rmatch_ws_lit by side.
  rewrite rmatch_ws_quoted_plus by value_side.
  rewrite rmatch_Chars, rmatch_ws_lit by side.
  rewrite rmatch_ws_quoted_plus by value_side.
  apply optional_comma_fail.
  destruct (addDate f) as [d|]; [|done].
  apply plainText_notQuote. by destruct (present d).
Qed.

Lemma objectTextWith_app comma f rest :
  objectTextWith comma f rest = objectTextWith comma f [] ++ rest.
Proof.
  unfold objectTextWith, fieldText, dateText, flagText, closingText, lastComma.
  destruct comma, (truthyText (addDate f)), (truthy (recommended f)),
    (truthy (disconnected f));
    repeat first [rewrite <- app_assoc | progress cbn [app]]; reflexivity.
Qed.

Lemma writtenEntry_app e rest :
  writtenEntry e ++ rest = lit "    " ++ objectTextWith e.1 e.2 rest.
Proof.
  unfold writtenEntry. by rewrite <- app_assoc, <- objectTextWith_app.
Qed.

Lemma writtenEntry_plain f rest : writtenEntry (false, f) ++ rest = entryText f ++ rest.
Proof. by rewrite writtenEntry_app, entryText_objectText. Qed.

Lemma written_noBrace f :
  noBrace f = true -> forallb notBrace (tl (objectTextWith true f [])) = true.
Proof.
  unfold noBrace. intros H. repeat (apply andb_prop in H as [H ?]).
  unfold objectTextWith, fieldText, dateText, flagText, closingText, lastComma.
  change (lit "{") with [123%N]. cbn [app tl].
  destruct (truthyText (addDate f)), (truthy (recommended f)),
    (truthy (disconnected f));
    repeat first [rewrite forallb_app | progress cbn [forallb]];
    repeat match goal with H : forallb notBrace _ = true |- _ => rewrite H; clear H end;
    by vm_compute.
Qed.

(** The search for an object passes over an entry whose last field is
    followed by a comma. *)
Lemma search_comma_entry pre f rest :
  forallb notBrace pre = true -> wellFormed f = true -> noBrace f = true ->
  search objectRegex (pre ++ writtenEntry (true, f) ++ rest) = search objectRegex rest.
Proof.
  intros Hpre Hwf Hnb. rewrite writtenEntry_app, app_assoc, search_skip.
  2: { rewrite forallb_app, Hpre. by vm_compute. }
  cbn [fst snd]. pose proof (object_comma_fail f rest Hwf) as Hfail.
  rewrite objectTextWith_app in *.
  pose proof (written_noBrace f Hnb) as Hskip.
  destruct (objectTextWith true f []) as [|c t] eqn:E; [done|].
  cbn [tl app] in *. cbn [search]. rewrite Hfail. by apply search_skip.
Qed.

Lemma execAll_comma_entry fuel pre f rest :
  forallb notBrace pre = true -> wellFormed f = true -> noBrace f = true ->
  execAll fuel (pre ++ writtenEntry (true, f) ++ rest) = execAll fuel rest.
Proof.
  intros Hpre Hwf Hnb. destruct fuel as [|fuel]; [done|]. cbn [execAll].
  by rewrite search_comma_entry.
Qed.

Lemma join_cons_cons (sep a b : jsstring) (l : list jsstring) :
  join sep (a :: b :: l) = a ++ sep ++ join sep (b :: l).
Proof. reflexivity. Qed.

(** The loop of the parser reads the entries without the comma and passes
    over the others. *)
Lemma execAll_written entries pre fuel :
  forallb (fun e => wellFormed e.2) entries = true ->
  forallb (fun e => implb e.1 (noBrace e.2)) entries = true ->
  forallb notBrace pre = true ->
  (length entries < fuel)%nat ->
  execAll fuel (pre ++ join separator (map writtenEntry entries) ++ line ",")
  = Some (readable entries).
Proof.
  revert pre fuel.
  induction entries as [|[comma f] entries IH]; intros pre fuel Hwf Hnb Hpre Hfuel.
  - cbn [map join app]. apply execAll_end; [done|lia].
  - cbn [forallb fst snd] in Hwf, Hnb.
    apply andb_prop in Hwf as [Hf Hwf]. apply andb_prop in Hnb as [Hb Hnb].
    cbn [length] in Hfuel.
    assert (forall fuel', (length entries < fuel')%nat ->
              execAll fuel' (match entries with
                             | [] => line ","
                             | _ :: _ => separator ++
                                 join separator (map writtenEntry entries) ++ line ","
                             end) = Some (readable entries)) as Hrest.
    { intros fuel' Hfuel'. destruct entries as [|e entries].
      - apply (execAll_end fuel' []); [done|lia].
      - by apply (IH separator). }
    assert (pre ++ join separator (map writtenEntry ((comma, f) :: entries)) ++ line ","
            = pre ++ writtenEntry (comma, f) ++
              match entries with
              | [] => line ","
              | _ :: _ => separator ++
                  join separator (map writtenEntry entries) ++ line ","
              end) as ->.
    { destruct entries as [|e entries]; [done|].
      cbn [map]. rewrite join_cons_cons. by rewrite <- !app_assoc. }
    destruct comma; cbn [implb] in Hb.
    + rewrite execAll_comma_entry by done. apply Hrest. lia.
    + destruct fuel as [|fuel]; [lia|].
      rewrite writtenEntry_plain, execAll_entry by done.
      rewrite Hrest by lia. done.
Qed.

Lemma objectTextWith_noClose comma f rest :
  wellFormed f = true -> includes rest closing = false ->
  includes (objectTextWith comma f rest) closing = false.
Proof.
  destruct comma; [|apply objectText_noClose].
  intros (Hn & Hds & Hu & Ha & Hdate)%wellFormed_fields Hrest.
  assert (includes (lit "," ++ closingText rest) closing = false) as Hc.
  { unfold closingText. apply noClose_skip; [done|].
    rewrite app_assoc. by apply noClose_skip. }
  assert (forall key b s, forallb notBracket (lit key) = true ->
                          includes s closing = false ->
                          includes (flagText key b s) closing = false) as Hflag.
  { intros key b s Hk Hs. unfold flagText. destruct (truthy b); [|done].
    apply noClose_skip; [done|]. apply noClose_skip; [done|].
    apply noClose_skip; [done|]. by repeat (apply noClose_skip; [done|]). }
  assert (includes (dateText (addDate f)
                      (flagText "recommended:" (recommended f)
                         (flagText "disconnected:" (disconnected f)
                            (lit "," ++ closingText rest)))) closing = false) as Hd.
  { unfold dateText. destruct (addDate f) as [[|x d]|] eqn:Ed; cbn [truthyText];
      try (by repeat apply Hflag).
    cbn [default from_option id].
    do 4 (apply noClose_skip; [done|]). apply (noClose_skip [dquote]); [done|].
    apply noClose_field; [by apply plainText_noClose, Hdate| |done].
    apply (noClose_skip [dquote]); [done|]. by repeat apply Hflag. }
  unfold objectTextWith, fieldText, lastComma.
  apply noClose_skip; [done|].
  do 3 (apply noClose_skip; [done|]). apply (noClose_skip [dquote]); [done|].
  apply noClose_field; [by apply plainText_noClose| |done].
  apply (noClose_skip [dquote]); [done|].
  do 4 (apply noClose_skip; [done|]). apply (noClose_skip [dquote]); [done|].
  apply noClose_field; [by apply plainText_noClose| |done].
  apply (noClose_skip [dquote]); [done|].
  do 4 (apply noClose_skip; [done|]). apply (noClose_skip [dquote]); [done|].
  apply noClose_field; [by apply plainText_noClose| |done].
  apply (noClose_skip [dquote]); [done|].
  do 4 (apply noClose_skip; [done|]). apply (noClose_skip [dquote]); [done|].
  apply noClose_field; [by apply plainText_noClose| |done].
  by apply (noClose_skip [dquote]).
Qed.

Lemma written_noClose entries :
  forallb (fun e => wellFormed e.2) entries = true ->
  includes (join separator (map writtenEntry entries) ++ line ",") closing = false.
Proof.
  induction entries as [|e entries IH]; [done|].
  cbn [forallb]. intros [Hf Hwf]%andb_prop. specialize (IH Hwf).
  destruct entries as [|g entries].
  - cbn [map join]. rewrite writtenEntry_app.
    apply noClose_skip; [done|]. by apply objectTextWith_noClose.
  - cbn [map]. rewrite join_cons_cons. rewrite <- !app_assoc, writtenEntry_app.
    apply noClose_skip; [done|]. apply objectTextWith_noClose; [done|].
    by apply noClose_skip.
Qed.

Lemma written_length entries :
  (length entries <= length (join separator (map writtenEntry entries)))%nat.
Proof.
  induction entries as [|e entries IH]; [done|].
  assert (1 <= length (writtenEntry e))%nat as He.
  { unfold writtenEntry. rewrite length_app. cbn. lia. }
  destruct entries as [|g entries]; [cbn [map join length]; lia|].
  cbn [map]. rewrite join_cons_cons. cbn [map] in IH.
  rewrite !length_app. cbn [length] in *. lia.
Qed.

Lemma handWritten_shape entries :
  handWritten entries =
  interfaceText ++
  lit "export const FRIEND_LINKS:" ++
  lit " " ++ lit "FriendLink[]" ++
  lit " " ++ lit "=" ++
  lit " " ++ lit "[" ++
  (newline :: join separator (map writtenEntry entries) ++ line ",") ++
  closing ++ [newline].
Proof.
  unfold handWritten, fileHeader, interfaceText, separator.
  rewrite <- !app_assoc. cbn [app]. rewrite <- !app_assoc. reflexivity.
Qed.

Lemma handWritten_plain friends :
  handWritten (map (pair false) friends) = generateFriendsTs friends.
Proof.
  unfold handWritten, generateFriendsTs. cbv zeta. rewrite map_map.
  rewrite (map_ext (fun f => writtenEntry (false, f)) entryText); [done|].
  intros f. rewrite <- (app_nil_r (writtenEntry _)), <- (app_nil_r (entryText f)).
  apply writtenEntry_plain.
Qed.

Lemma parse_handWritten (entries : list (bool * FriendLink)) :
  forallb (fun e => wellFormed e.2) entries = true ->
  forallb (fun e => implb e.1 (noBrace e.2)) entries = true ->
  parseFriendsTs (handWritten entries) = inr (readable entries).
Proof.
  intros Hwf Hnb. unfold parseFriendsTs.
  assert (search arrayRegex (handWritten entries) =
          Some (setCapture 1 (newline :: join separator (map writtenEntry entries)
                                ++ line ",") noCaptures, [newline])) as ->.
  { rewrite handWritten_shape, search_after_interface.
    apply search_at. unfold matchAt, arrayRegex.
    rewrite rmatch_Chars. do 3 rewrite rmatch_ws_lit by side.
    apply lazy_match. apply (noClose_skip [newline]); [done|].
    by apply written_noClose. }
  cbv zeta. change (setCapture 1 ?v noCaptures 1%nat) with (Some v).
  cbn [default from_option id].
  rewrite (execAll_written entries [newline]); [done..|].
  pose proof (written_length entries). cbn [length]. rewrite length_app. lia.
Qed.

(** X12. In a data file laid out as the generator lays it out, the parser
    reads exactly the entries whose last field is not followed by a comma,
    in their order: an entry that ends with a comma before its closing
    brace is passed over without an error. Here the entries are well
    formed and those with the comma hold no opening brace in their texts;
    without any such comma the file is the one that the generator
    writes. *)
Theorem trailing_comma_entries_are_skipped (entries : list (bool * FriendLink)) :
  forallb (fun e => wellFormed e.2) entries = true ->
  forallb (fun e => implb e.1 (noBrace e.2)) entries = true ->
  parseFriendsTs (handWritten entries) = inr (readable entries) /\
  handWritten (map (pair false) (map snd entries)) = generateFriendsTs (map snd entries).
Proof.
  intros Hwf Hnb. split; [by apply parse_handWritten|apply handWritten_plain].
Qed.

Lemma trailing_comma_entries_are_skipped_witness :
  (parseFriendsTs (handWritten excerptEntries) = inr (readable excerptEntries) /\
   handWritten (map (pair false) (map snd excerptEntries))
   = generateFriendsTs (map snd excerptEntries)) /\
  handWritten excerptEntries = dataFileExcerpt /\
  length (readable excerptEntries) = 1%nat.
Proof.
  split; [|split; by vm_compute].
  apply (trailing_comma_entries_are_skipped excerptEntries); by vm_compute.
Defined.

(** X13. When a run rewrites a data file that was written by hand, the
    entries whose last field is followed by a comma are gone from it: the
    file written holds the entries that the parser read, with other flags
    at most, and nothing else. *)
Theorem rewritten_file_drops_comma_entries
        (w : World) (entries : list (bool * FriendLink)) :
  forallb (fun e => wellFormed e.2) entries = true ->
  forallb (fun e => implb e.1 (noBrace e.2)) entries = true ->
  dataFile w = handWritten entries ->
  dataFile (main w).2 <> dataFile w ->
  exists kept,
    dataFile (main w).2 = generateFriendsTs kept /\
    parseFriendsTs (dataFile (main w).2) = inr kept /\
    Forall2 sameButFlag (readable entries) kept.
Proof.
  intros Hwf Hnb Hfile Hchanged.
  pose proof (parse_handWritten entries Hwf Hnb) as Hp. rewrite <- Hfile in Hp.
  destruct (main_dataFile w _ Hp) as [Hsame|(kept & Hk & Hflags & Hkwf)]; [done|].
  exists kept. split; [done|]. split; [|done].
  rewrite Hk. by apply parse_generate.
Qed.

Lemma rewritten_file_drops_comma_entries_witness :
  exists kept,
    dataFile (main (withFiles worldDown (handWritten excerptEntries) None)).2
    = generateFriendsTs kept /\
    parseFriendsTs
      (dataFile (main (withFiles worldDown (handWritten excerptEntries) None)).2)
    = inr kept /\
    Forall2 sameButFlag (readable excerptEntries) kept.
Proof.
  apply (rewritten_file_drops_comma_entries
           (withFiles worldDown (handWritten excerptEntries) None) excerptEntries).
  - by vm_compute.
  - by vm_compute.
  - reflexivity.
  - vm_compute. discriminate.
Defined.

(** * Consecutive runs *)

Lemma updateFriend_name results f : name (updateFriend results f) = name f.
Proof. by rewrite updateFriend_frame. Qed.

Lemma resultsOf_spec friends w results w1 :
  checkAll friends w = (Returns results, w1) -> resultsOf friends w = results.
Proof. intros H. unfold resultsOf. by rewrite H. Qed.

Lemma isFailed_notOk r :
  isFailed r = true -> notOk (status r) || notOk (avatarStatus r) = true.
Proof.
  unfold isFailed. destruct (notOk (status r)); [done|].
  by destruct (notOk (avatarStatus r)).
Qed.

(** A run in which the result of an entry is listed as failed flags the
    entry in the data file and exits with code 1, when its file operations
    succeed. *)
Lemma failing_entry_is_flagged friends w i f r :
  diskOk w ->
  NoDup (map name friends) ->
  friends !! i = Some f ->
  resultsOf friends w !! i = Some r -> isFailed r = true ->
  truthy (disconnected f) = false /\
  (checkAndUpdate friends w).1 = Exits 1 /\
  dataFile (checkAndUpdate friends w).2
  = generateFriendsTs (updatedFriends friends (resultsOf friends w)) /\
  updatedFriends friends (resultsOf friends w) !! i = Some (setDisconnected f (Some true)).
Proof.
  intros Hok Hnd Hi Hr Hfail.
  destruct (checkAll_spec friends w) as (results & w1 & Hc & HF & _).
  rewrite (resultsOf_spec _ _ _ _ Hc) in *.
  destruct (findResult_first friends results i f HF Hi) as (r' & Hfind & Hr' & Hfor);
    [by apply NoDup_names_first|].
  assert (r' = r) as -> by congruence.
  pose proof (isFailed_notOk r Hfail) as Hbad.
  assert (truthy (disconnected f) = false) as Hflag.
  { destruct (truthy (disconnected f)) eqn:E; [|done].
    destruct Hfor as (_ & _ & Hs & Ha & _); [done|]. by rewrite Hs, Ha in Hbad. }
  assert (updateFriend results f = setDisconnected f (Some true)) as Hup.
  { unfold updateFriend. cbv zeta. by rewrite Hfind, Hbad. }
  assert (updatedFriends friends results !! i = Some (setDisconnected f (Some true)))
    as Hi'.
  { unfold updatedFriends. by rewrite list_lookup_fmap, Hi, <- Hup. }
  assert (hasChanges (updatedFriends friends results) friends = true) as Hch.
  { apply hasChanges_iff. exists i, f, (setDisconnected f (Some true)).
    repeat split; try done. cbn [setDisconnected disconnected]. intros Heq.
    by rewrite <- Heq in Hflag. }
  assert ((0 <? length (failed results))%nat = true) as Hlisted.
  { apply failed_nonempty. exists r. split; [|done].
    apply list_elem_of_In, list_elem_of_lookup. by exists i. }
  rewrite (checkAndUpdate_spec _ _ _ _ Hok Hc), Hlisted, Hch. done.
Qed.

(** A run clears the flag of every flagged entry in the data file, whatever
    the network answers, when names are distinct and its file operations
    succeed. *)
Lemma flagged_entry_is_cleared friends w i g :
  diskOk w ->
  NoDup (map name friends) ->
  friends !! i = Some g -> truthy (disconnected g) = true ->
  exists kept,
    dataFile (checkAndUpdate friends w).2 = generateFriendsTs kept /\
    kept !! i = Some (setDisconnected g None) /\
    (forallb wellFormed friends = true -> forallb wellFormed kept = true).
Proof.
  intros Hok Hnd Hi Hflag.
  destruct (checkAll_spec friends w) as (results & w1 & Hc & HF & _).
  destruct (findResult_first friends results i g HF Hi) as (r & Hfind & Hr & Hfor);
    [by apply NoDup_names_first|].
  destruct Hfor as (_ & _ & Hs & Ha & _); [done|].
  rewrite (checkAndUpdate_spec _ _ _ _ Hok Hc).
  destruct (0 <? length (failed results))%nat; cbn [snd withFiles dataFile].
  - assert (updateFriend results g = setDisconnected g None) as Hup.
    { unfold updateFriend. cbv zeta. rewrite Hfind, Hs, Ha, Hflag. done. }
    assert (updatedFriends friends results !! i = Some (setDisconnected g None)) as Hi'.
    { unfold updatedFriends. by rewrite list_lookup_fmap, Hi, <- Hup. }
    assert (hasChanges (updatedFriends friends results) friends = true) as ->.
    { apply hasChanges_iff. exists i, g, (setDisconnected g None).
      repeat split; try done. cbn [setDisconnected disconnected]. intros Heq.
      by rewrite <- Heq in Hflag. }
    exists (updatedFriends friends results). repeat split; try done.
    intros Hwf. apply forallb_map_wellFormed; [|done]. apply updateFriend_wellFormed.
  - assert ((0 <? length (recoveredFriends friends))%nat = true) as ->.
    { apply recovered_iff. by exists i, g. }
    exists (clearedFriends friends). repeat split.
    + unfold clearedFriends, clearFlag. rewrite list_lookup_fmap, Hi. cbn [fmap option_fmap option_map].
      by rewrite Hflag.
    + intros Hwf. apply forallb_map_wellFormed; [|done]. apply clearFlag_wellFormed.
Qed.

(** X14. The flag of a dead link alternates. With distinct names, a run in
    which the result of an entry is listed as failed exits with code 1 and
    leaves the entry flagged in the data file; the next run, whatever the
    network answers then, leaves it in the data file as it was before the
    first run, without the flag. The file operations of both runs are
    taken to succeed. *)
Theorem dead_link_flag_alternates
        (w : World) (friends : list FriendLink) (i : nat)
        (f : FriendLink) (r : LinkCheckResult) :
  diskOk w ->
  parseFriendsTs (dataFile w) = inr friends ->
  NoDup (map name friends) ->
  friends !! i = Some f ->
  resultsOf friends w !! i = Some r -> isFailed r = true ->
  exitCode w = 1 /\
  (exists kept, parseFriendsTs (dataFile (main w).2) = inr kept /\
                kept !! i = Some (setDisconnected f (Some true))) /\
  (forall w2, nextRun w w2 -> diskOk w2 ->
              exists kept, parseFriendsTs (dataFile (main w2).2) = inr kept /\
                           kept !! i = Some f).
Proof.
  intros Hok Hp Hnd Hi Hr Hfail.
  pose proof (parse_wellFormed _ _ Hp) as Hwf.
  destruct (failing_entry_is_flagged friends w i f r Hok Hnd Hi Hr Hfail)
    as (Hflag & Hexit & Hfile & Hi').
  set (flagged := updatedFriends friends (resultsOf friends w)) in *.
  assert (forallb wellFormed flagged = true) as Hwf'.
  { apply forallb_map_wellFormed; [|done]. apply updateFriend_wellFormed. }
  assert (dataFile (main w).2 = generateFriendsTs flagged) as Hmain.
  { by rewrite main_spec, Hp. }
  split; [unfold exitCode; by rewrite main_spec, Hp, Hexit|].
  split; [exists flagged; split; [rewrite Hmain; by apply parse_generate|done]|].
  intros w2 Hnext Hok2. unfold nextRun in Hnext. rewrite Hmain in Hnext.
  assert (NoDup (map name flagged)) as Hnd'.
  { unfold flagged, updatedFriends. rewrite map_map.
    rewrite (map_ext (fun x => name (updateFriend (resultsOf friends w) x)) name); [done|].
    intros x. apply updateFriend_name. }
  destruct (flagged_entry_is_cleared flagged w2 i (setDisconnected f (Some true))
              Hok2 Hnd' Hi')
    as (kept & Hkept & Hk & Hkwf); [done|].
  exists kept. rewrite main_spec, Hnext, (parse_generate _ Hwf'), Hkept by done.
  split; [apply parse_generate; by apply Hkwf|].
  rewrite Hk, setDisconnected_twice. f_equal.
  assert (wellFormed f = true) as Hf.
  { rewrite forallb_forall in Hwf. apply Hwf.
    apply list_elem_of_In, list_elem_of_lookup. by exists i. }
  unfold wellFormed in Hf. apply andb_prop in Hf as [_ Hf].
  destruct f as [n d u a dt r6 [[|]|]]; cbn in *; done.
Qed.

Lemma dead_link_flag_alternates_witness :
  (exitCode (withFiles worldDown
               (generateFriendsTs [friendOf "A" "https://a.example" None]) None) = 1 /\
   (exists kept,
      parseFriendsTs
        (dataFile (main (withFiles worldDown
                           (generateFriendsTs [friendOf "A" "https://a.example" None])
                           None)).2) = inr kept /\
      kept !! 0%nat = Some (setDisconnected (friendOf "A" "https://a.example" None)
                                            (Some true))) /\
   (forall w2,
      nextRun (withFiles worldDown
                 (generateFriendsTs [friendOf "A" "https://a.example" None]) None) w2 ->
      diskOk w2 ->
      exists kept, parseFriendsTs (dataFile (main w2).2) = inr kept /\
                   kept !! 0%nat = Some (friendOf "A" "https://a.example" None))) /\
  exitCode (main (withFiles worldDown
                    (generateFriendsTs [friendOf "A" "https://a.example" None])
                    None)).2 = 0.
Proof.
  split; [|by vm_compute].
  apply (dead_link_flag_alternates
           (withFiles worldDown
              (generateFriendsTs [friendOf "A" "https://a.example" None]) None)
           [friendOf "A" "https://a.example" None] 0
           (friendOf "A" "https://a.example" None)
           {| res_name := lit "A"; res_url := lit "https://a.example";
              res_avatar := lit "https://a.example" ++ lit "/avatar.png";
              status := Some ERROR; httpStatus := None; responseTime := Some 0;
              reason := Some (lit "fetch failed");
              avatarStatus := Some ERROR; avatarHttpStatus := None;
              avatarResponseTime := Some 0 |}).
  - intros op. reflexivity.
  - by vm_compute.
  - apply (bool_decide_unpack _). by vm_compute.
  - reflexivity.
  - by vm_compute.
  - by vm_compute.
Defined.
